(** * gin-compress: the buffered-then-streaming response writer,
      the Accept-Encoding negotiation and the request decoding chain.

    The response writer ([respWriter], [trackingResponseWriter]) is embedded
    from the Go source.  The gin response writer below it, the [algorithm]
    interface and the middleware handler are not part of the sources at hand;
    they are modelled at their interface, and each such definition says so. *)

From Stdlib Require Import ZArith Lia List Strings.Byte Strings.Ascii QArith Lqa.
From stdpp Require Import base gmap strings list.

Local Open Scope Z_scope.

(** ** Go's [int] on a 64-bit platform *)

Definition int_min : Z := - 2 ^ 63.
Definition int_max : Z := 2 ^ 63 - 1.

Definition is_int (z : Z) : Prop := int_min <= z <= int_max.

(** Two's complement wrap-around of a mathematical integer into [int]. *)
Definition wrap (z : Z) : Z := (z + 2 ^ 63) mod 2 ^ 64 - 2 ^ 63.

(** [a + b] and [a += b] on [int]. *)
Definition int_add (a b : Z) : Z := wrap (a + b).

(** [len(b)] *)
Definition len {X : Type} (l : list X) : Z := Z.of_nat (length l).

(** ** Errors *)

Inductive error : Type :=
| ErrShortWrite                (* io.ErrShortWrite *)
| ErrTransport (tag : nat)     (* an error of the connection, told apart by a tag *)
| PanicNilDeref.               (* run-time panic: method call on a nil compressor *)

(** ** http.Header *)

Abbreviation Header := (gmap string (list string)).

(** [h.Set(k, v)]: the key gets the single value [v]. *)
Definition Header_Set (k v : string) (h : Header) : Header := <[k := [v]]> h.

(** [h.Del(k)] *)
Definition Header_Del (k : string) (h : Header) : Header := delete k h.

(** [h.Get(k)]: first value, or the empty string. *)
Definition Header_Get (k : string) (h : Header) : string :=
  match h !! k with
  | Some (v :: _) => v
  | _ => ""%string
  end.

(** ** The gin response writer under the middleware ([c.Writer]) *)

(** Modelled from the spec: the "real output sink" with its response headers;
    [gin.ResponseWriter] is a type of the framework and not part of the
    sources.  The sink keeps the live header map, the status code, the bytes
    the transport accepted, and the header map as it stood when the transport
    was first asked for body bytes ([sk_wire]: headers leave with the first
    body write).  Transport failures are scripted by [sk_fault]: the write
    number [i] either takes everything ([None]) or takes at most [k] bytes
    and returns the error [e] ([Some (k, e)]). *)
Record sink : Type := {
  sk_header : Header;
  sk_status : Z;
  sk_wire : option Header;
  sk_body : list byte;
  sk_calls : nat;
  sk_fault : nat -> option (nat * error)
}.

Definition sink_with_header (h : Header) (s : sink) : sink :=
  {| sk_header := h; sk_status := sk_status s; sk_wire := sk_wire s;
     sk_body := sk_body s; sk_calls := sk_calls s; sk_fault := sk_fault s |}.

Definition sink_WriteHeader (code : Z) (s : sink) : sink :=
  {| sk_header := sk_header s; sk_status := code; sk_wire := sk_wire s;
     sk_body := sk_body s; sk_calls := sk_calls s; sk_fault := sk_fault s |}.

Definition sink_Write (s : sink) (b : list byte) : (Z * option error) * sink :=
  let wire := match sk_wire s with
              | None => Some (sk_header s)
              | Some h => Some h
              end in
  match sk_fault s (sk_calls s) with
  | None =>
      ((len b, None),
       {| sk_header := sk_header s; sk_status := sk_status s; sk_wire := wire;
          sk_body := sk_body s ++ b; sk_calls := S (sk_calls s);
          sk_fault := sk_fault s |})
  | Some (k, e) =>
      ((len (take k b), Some e),
       {| sk_header := sk_header s; sk_status := sk_status s; sk_wire := wire;
          sk_body := sk_body s ++ take k b; sk_calls := S (sk_calls s);
          sk_fault := sk_fault s |})
  end.

(** ** trackingResponseWriter (counts the bytes that reach the sink) *)

Record trackingResponseWriter : Type := {
  tw_ResponseWriter : sink;
  tw_bytesWritten : Z
}.

(** [newTrackingResponseWriter(c, nil)]; the nil handler becomes the no-op
    handler, which leaves no trace. *)
Definition newTrackingResponseWriter (c_Writer : sink) : trackingResponseWriter :=
  {| tw_ResponseWriter := c_Writer; tw_bytesWritten := 0 |}.

Definition tracking_Write (tw : trackingResponseWriter) (b : list byte)
  : (Z * option error) * trackingResponseWriter :=
  let '((n, err), s) := sink_Write (tw_ResponseWriter tw) b in
  ((n, err),
   {| tw_ResponseWriter := s; tw_bytesWritten := int_add (tw_bytesWritten tw) n |}).

Definition tracking_WriteString (tw : trackingResponseWriter) (s : string)
  : (Z * option error) * trackingResponseWriter :=
  tracking_Write tw (String.list_byte_of_string s).

Definition tracking_map_header (f : Header -> Header) (tw : trackingResponseWriter)
  : trackingResponseWriter :=
  {| tw_ResponseWriter :=
       sink_with_header (f (sk_header (tw_ResponseWriter tw))) (tw_ResponseWriter tw);
     tw_bytesWritten := tw_bytesWritten tw |}.

Definition tracking_WriteHeader (code : Z) (tw : trackingResponseWriter)
  : trackingResponseWriter :=
  {| tw_ResponseWriter := sink_WriteHeader code (tw_ResponseWriter tw);
     tw_bytesWritten := tw_bytesWritten tw |}.

(** ** The algorithm interface *)

(** Modelled from the spec: the [algorithm] type with its [getWriter] is
    missing from the sources; the spec treats a codec as an opaque stream
    transform made of an encoder-stream factory and a decoder.  An encoder is
    a state machine: a write consumes its input and says which bytes go out
    now, closing says which bytes are still due.  [enc_count] is the count an
    encoder write reports when the writer below it took only [k] of the bytes
    sent out and failed. *)
Record algorithm : Type := {
  enc : Type;
  enc_new : enc;
  enc_write : enc -> list byte -> enc * list byte;
  enc_close : enc -> list byte;
  enc_count : enc -> list byte -> nat -> nat;
  dec : list byte -> option (list byte)
}.

(** ** MetricsData *)

Record MetricsData : Type := {
  OriginalSize : Z;
  CompressedSize : Z;
  CompressionApplied : bool;
  EncodingUsed : string
}.

Section Writer.

Variable A : algorithm.

(** *** The encoder stream returned by [algo.getWriter(rw.ResponseWriter)] *)

(** Modelled from the spec: a write on the encoder stream (the codecs are
    missing from the sources).  It sends what the encoder has ready, in one
    write, into the tracking writer it was created on, and takes the whole
    input unless that write fails. *)
Definition compressor_Write (c : enc A) (tw : trackingResponseWriter) (b : list byte)
  : (Z * option error) * enc A * trackingResponseWriter :=
  let '(c', out) := enc_write A c b in
  match out with
  | [] => ((len b, None), c', tw)
  | _ :: _ =>
      let '((m, err), tw') := tracking_Write tw out in
      match err with
      | Some e => ((Z.of_nat (Nat.min (enc_count A c b (Z.to_nat m)) (length b)), Some e), c', tw')
      | None => ((len b, None), c', tw')
      end
  end.

(** Modelled from the spec: closing the encoder stream sends what is still
    due. *)
Definition compressor_Close (c : enc A) (tw : trackingResponseWriter)
  : option error * trackingResponseWriter :=
  match enc_close A c with
  | [] => (None, tw)
  | (_ :: _) as out => let '((_, err), tw') := tracking_Write tw out in (err, tw')
  end.

(** *** respWriter

    [ResponseWriter] and [trackingWriter] hold the same pointer; the model
    keeps the one object in [trackingWriter].  [buf] is [None] for the nil
    buffer, [compressor] is [None] for the nil interface.  [reported] is the
    trace of the calls made to [metricsHandler]. *)

Record respWriter : Type := {
  trackingWriter : trackingResponseWriter;
  threshold : Z;
  encoding : string;
  buf : option (list byte);
  compressor : option (enc A);
  bytesWritten : Z;
  compressedBytesCount : Z;
  reported : list MetricsData
}.

Definition newResponseWriter (c_Writer : sink) (swapSize : Z) (encoding : string) : respWriter :=
  {| trackingWriter := newTrackingResponseWriter c_Writer;
     threshold := swapSize;
     encoding := encoding;
     buf := Some [];
     compressor := None;
     bytesWritten := 0;
     compressedBytesCount := 0;
     reported := [] |}.

Definition set_tracker (tw : trackingResponseWriter) (rw : respWriter) : respWriter :=
  {| trackingWriter := tw; threshold := threshold rw; encoding := encoding rw;
     buf := buf rw; compressor := compressor rw; bytesWritten := bytesWritten rw;
     compressedBytesCount := compressedBytesCount rw; reported := reported rw |}.

Definition set_buf (b : option (list byte)) (rw : respWriter) : respWriter :=
  {| trackingWriter := trackingWriter rw; threshold := threshold rw; encoding := encoding rw;
     buf := b; compressor := compressor rw; bytesWritten := bytesWritten rw;
     compressedBytesCount := compressedBytesCount rw; reported := reported rw |}.

Definition set_compressor (c : option (enc A)) (rw : respWriter) : respWriter :=
  {| trackingWriter := trackingWriter rw; threshold := threshold rw; encoding := encoding rw;
     buf := buf rw; compressor := c; bytesWritten := bytesWritten rw;
     compressedBytesCount := compressedBytesCount rw; reported := reported rw |}.

Definition set_bytesWritten (n : Z) (rw : respWriter) : respWriter :=
  {| trackingWriter := trackingWriter rw; threshold := threshold rw; encoding := encoding rw;
     buf := buf rw; compressor := compressor rw; bytesWritten := n;
     compressedBytesCount := compressedBytesCount rw; reported := reported rw |}.

Definition set_compressedBytesCount (n : Z) (rw : respWriter) : respWriter :=
  {| trackingWriter := trackingWriter rw; threshold := threshold rw; encoding := encoding rw;
     buf := buf rw; compressor := compressor rw; bytesWritten := bytesWritten rw;
     compressedBytesCount := n; reported := reported rw |}.

Definition report (m : MetricsData) (rw : respWriter) : respWriter :=
  {| trackingWriter := trackingWriter rw; threshold := threshold rw; encoding := encoding rw;
     buf := buf rw; compressor := compressor rw; bytesWritten := bytesWritten rw;
     compressedBytesCount := compressedBytesCount rw; reported := reported rw ++ [m] |}.

(** [rw.Header()]: the live header map of the sink. *)
Definition Header_of (rw : respWriter) : Header :=
  sk_header (tw_ResponseWriter (trackingWriter rw)).

Definition map_header (f : Header -> Header) (rw : respWriter) : respWriter :=
  set_tracker (tracking_map_header f (trackingWriter rw)) rw.

(** The sink under the writer. *)
Definition sink_of (rw : respWriter) : sink := tw_ResponseWriter (trackingWriter rw).

Definition Swapped (rw : respWriter) : bool :=
  match buf rw with
  | None => true
  | Some _ => false
  end.

(** [io.Copy(rw.compressor, rw.buf)], which is [rw.buf.WriteTo(rw.compressor)]:
    one write of the unread bytes; the buffer advances by the reported count
    and is reset when everything went through.  Returns the count, the error,
    the bytes left in the buffer, the encoder and the tracking writer. *)
Definition copy_to_compressor (c : enc A) (tw : trackingResponseWriter) (data : list byte)
  : (Z * option error) * list byte * enc A * trackingResponseWriter :=
  match data with
  | [] => ((0, None), [], c, tw)
  | _ :: _ =>
      let '((m, err), c', tw') := compressor_Write c tw data in
      match err with
      | Some e => ((m, Some e), drop (Z.to_nat m) data, c', tw')
      | None =>
          if m =? len data then ((m, None), [], c', tw')
          else ((m, Some ErrShortWrite), drop (Z.to_nat m) data, c', tw')
      end
  end.

(** [io.Copy(rw.ResponseWriter, rw.buf)] *)
Definition copy_to_sink (tw : trackingResponseWriter) (data : list byte)
  : (Z * option error) * list byte * trackingResponseWriter :=
  match data with
  | [] => ((0, None), [], tw)
  | _ :: _ =>
      let '((m, err), tw') := tracking_Write tw data in
      match err with
      | Some e => ((m, Some e), drop (Z.to_nat m) data, tw')
      | None =>
          if m =? len data then ((m, None), [], tw')
          else ((m, Some ErrShortWrite), drop (Z.to_nat m) data, tw')
      end
  end.

(** Lines 66-74 of [Write]: the swap.  [Some (copied, err)] is the early
    return. *)
Definition swap_if_due (rw : respWriter) (b : list byte)
  : option (Z * error) * respWriter :=
  match buf rw with
  | None => (None, rw)
  | Some data =>
      if threshold rw <=? int_add (len data) (len b) then
        let rw1 := map_header (Header_Set "Content-Encoding" (encoding rw)) rw in
        let rw2 := map_header (Header_Set "Vary" "Accept-Encoding") rw1 in
        let '((copied, err), rest, c, tw) :=
          copy_to_compressor (enc_new A) (trackingWriter rw2) data in
        let rw3 := set_tracker tw (set_compressor (Some c) rw2) in
        match err with
        | Some e => (Some (copied, e), set_buf (Some rest) rw3)
        | None => (None, set_buf None rw3)
        end
      else (None, rw)
  end.

(** Lines 76-83 of [Write]: [w.Write(b)] on the compressor once swapped, on
    the buffer before ([bytes.Buffer.Write] takes everything and returns a
    nil error). *)
Definition dest_Write (rw : respWriter) (b : list byte)
  : (Z * option error) * respWriter :=
  match buf rw with
  | None =>
      match compressor rw with
      | None => ((0, Some PanicNilDeref), rw)
      | Some c =>
          let '((n, err), c', tw) := compressor_Write c (trackingWriter rw) b in
          ((n, err), set_tracker tw (set_compressor (Some c') rw))
      end
  | Some data => ((len b, None), set_buf (Some (data ++ b)) rw)
  end.

Definition Write (rw : respWriter) (b : list byte) : (Z * option error) * respWriter :=
  let rw0 := map_header (Header_Del "Content-Length") rw in
  match swap_if_due rw0 b with
  | (Some (copied, e), rw1) => ((copied, Some e), rw1)
  | (None, rw1) =>
      let '((n, err), rw2) := dest_Write rw1 b in
      match err with
      | Some e => ((n, Some e), rw2)
      | None => ((n, None), set_bytesWritten (int_add (bytesWritten rw2) n) rw2)
      end
  end.

Definition WriteString (rw : respWriter) (s : string) : (Z * option error) * respWriter :=
  Write rw (String.list_byte_of_string s).

Definition Size (rw : respWriter) : Z := bytesWritten rw.

Definition Written (rw : respWriter) : bool := 0 <? bytesWritten rw.

Definition GetCompressionApplied (rw : respWriter) : bool := Swapped rw.

Definition GetEncoding (rw : respWriter) : string :=
  if GetCompressionApplied rw then encoding rw else ""%string.

Definition GetOriginalSize (rw : respWriter) : Z := bytesWritten rw.

Definition GetCompressedSize (rw : respWriter) : Z :=
  if GetCompressionApplied rw then tw_bytesWritten (trackingWriter rw)
  else bytesWritten rw.

Definition GetMetricsData (rw : respWriter) : MetricsData :=
  {| OriginalSize := GetOriginalSize rw;
     CompressedSize := GetCompressedSize rw;
     CompressionApplied := GetCompressionApplied rw;
     EncodingUsed := GetEncoding rw |}.

(** The body of [Close] without the deferred function. *)
Definition Close_body (rw : respWriter) : option error * respWriter :=
  match buf rw with
  | Some data =>
      let '((_, err), rest, tw) := copy_to_sink (trackingWriter rw) data in
      (err, set_tracker tw (set_buf (Some rest) rw))
  | None =>
      match compressor rw with
      | None => (Some PanicNilDeref, rw)
      | Some c =>
          let '(err, tw) := compressor_Close c (trackingWriter rw) in
          (err, set_tracker tw rw)
      end
  end.

(** The deferred function of [Close]: runs on every way out of the body. *)
Definition Close_deferred (rw : respWriter) : respWriter :=
  let rw1 := if GetCompressionApplied rw
             then set_compressedBytesCount (tw_bytesWritten (trackingWriter rw)) rw
             else rw in
  report (GetMetricsData rw1) rw1.

Definition Close (rw : respWriter) : option error * respWriter :=
  let '(err, rw1) := Close_body rw in (err, Close_deferred rw1).

Definition WriteHeader (rw : respWriter) (code : Z) : respWriter :=
  let rw0 := map_header (Header_Del "Content-Length") rw in
  set_tracker (tracking_WriteHeader code (trackingWriter rw0)) rw0.

End Writer.

Arguments trackingWriter {A} _.
Arguments threshold {A} _.
Arguments encoding {A} _.
Arguments buf {A} _.
Arguments compressor {A} _.
Arguments bytesWritten {A} _.
Arguments compressedBytesCount {A} _.
Arguments reported {A} _.
Arguments Header_of {A} _.
Arguments sink_of {A} _.
Arguments Swapped {A} _.
Arguments GetMetricsData {A} _.
Arguments GetCompressionApplied {A} _.
Arguments GetCompressedSize {A} _.
Arguments GetOriginalSize {A} _.
Arguments GetEncoding {A} _.

(** ** One response: what the application does with the writer

    The application writes body bytes, sets the status code and edits the
    header map it gets from [rw.Header()]; the middleware closes the writer at
    the end. *)

Inductive op : Type :=
| OpWrite (b : list byte)
| OpWriteString (s : string)
| OpWriteHeader (code : Z)
| OpHeaderSet (k v : string)
| OpHeaderDel (k : string).

(** The body bytes an operation hands to the writer. *)
Definition payload (o : op) : list byte :=
  match o with
  | OpWrite b => b
  | OpWriteString s => String.list_byte_of_string s
  | _ => []
  end.

Definition is_write (o : op) : bool :=
  match o with
  | OpWrite _ | OpWriteString _ => true
  | _ => false
  end.

(** The response body as the application wrote it. *)
Definition written (ops : list op) : list byte := flat_map payload ops.

(** What the application's own header edits make of a header map. *)
Definition app_header_step (o : op) (h : Header) : Header :=
  match o with
  | OpHeaderSet k v => Header_Set k v h
  | OpHeaderDel k => Header_Del k h
  | _ => h
  end.

Definition app_header (ops : list op) (h : Header) : Header :=
  fold_left (fun h o => app_header_step o h) ops h.

Section Run.

Variable A : algorithm.

Definition step (rw : respWriter A) (o : op) : option error * respWriter A :=
  match o with
  | OpWrite b => let '((_, err), rw') := Write A rw b in (err, rw')
  | OpWriteString s => let '((_, err), rw') := WriteString A rw s in (err, rw')
  | OpWriteHeader code => (None, WriteHeader A rw code)
  | OpHeaderSet k v => (None, map_header A (Header_Set k v) rw)
  | OpHeaderDel k => (None, map_header A (Header_Del k) rw)
  end.

(** The writer after a sequence of operations. *)
Definition run (ops : list op) (rw : respWriter A) : respWriter A :=
  fold_left (fun rw o => snd (step rw o)) ops rw.

(** The errors the operations returned, in order. *)
Fixpoint faults (ops : list op) (rw : respWriter A) : list error :=
  match ops with
  | [] => []
  | o :: ops' =>
      match fst (step rw o) with
      | Some e => e :: faults ops' (snd (step rw o))
      | None => faults ops' (snd (step rw o))
      end
  end.

(** The bytes an encoder sends out for a sequence of writes, and its state
    after them. *)
Fixpoint feed (c : enc A) (chunks : list (list byte)) : enc A * list byte :=
  match chunks with
  | [] => (c, [])
  | b :: rest =>
      let '(c1, o1) := enc_write A c b in
      let '(c2, o2) := feed c1 rest in
      (c2, o1 ++ o2)
  end.

(** The whole encoded stream: writes, then close. *)
Definition stream (chunks : list (list byte)) : list byte :=
  let '(c, o) := feed (enc_new A) chunks in o ++ enc_close A c.

(** The codec contract the round trip rests on: the decoder undoes the
    encoder, however the input was cut into writes. *)
Definition lossless : Prop :=
  forall chunks, dec A (stream chunks) = Some (concat chunks).

End Run.

Arguments step {A} _ _.
Arguments run {A} _ _.
Arguments faults {A} _ _.

(** ** A small codec to run the writer on

    Stands in for a real codec wherever a concrete run is evaluated: a magic
    byte before the first output, every input byte sent as the pair
    [x01; byte], and [x00] at the end.  Like gzip it writes to the sink as
    soon as it is written to. *)

Definition stuff (b : list byte) : list byte := flat_map (fun x => [x01; x]) b.

Fixpoint unstuff (fuel : nat) (bs : list byte) : option (list byte) :=
  match fuel with
  | O => None
  | S fuel' =>
      match bs with
      | [x00] => Some []
      | x01 :: x :: rest =>
          match unstuff fuel' rest with
          | Some r => Some (x :: r)
          | None => None
          end
      | _ => None
      end
  end.

Definition magic (started : bool) : list byte := if started then [] else [x1f].

Definition stuffing : algorithm :=
  {| enc := bool;
     enc_new := false;
     enc_write := fun started b => (true, magic started ++ stuff b);
     enc_close := fun started => magic started ++ [x00];
     enc_count := fun started _ k => Nat.div (k - length (magic started)) 2;
     dec := fun bs =>
              match bs with
              | x1f :: rest => unstuff (S (length rest)) rest
              | _ => None
              end |}.

(** A sink with no headers, no body and the given failure script. *)
Definition fresh_sink (fault : nat -> option (nat * error)) : sink :=
  {| sk_header := ∅; sk_status := 200; sk_wire := None; sk_body := [];
     sk_calls := 0; sk_fault := fault |}.

Definition never_fails : nat -> option (nat * error) := fun _ => None.

(** A transport that refuses every body write, as a connection does once the
    status code allows no body. *)
Definition refuses_all : nat -> option (nat * error) := fun _ => Some (0%nat, ErrTransport 0).

(** A transport whose write number [i] takes [k] bytes and breaks; the other
    writes go through. *)
Definition breaks_at (i k : nat) : nat -> option (nat * error) :=
  fun j => if Nat.eqb j i then Some (k, ErrTransport 1) else None.

Definition bytes_of (s : string) : list byte := String.list_byte_of_string s.

(** The response of the failed swap: two bytes are buffered, the next write
    reaches the threshold of four, and the transport refuses the first bytes
    the new compressor sends. *)
Definition failed_swap : respWriter stuffing :=
  run [OpWrite (bytes_of "ab"); OpWrite (bytes_of "cdefgh")]
      (newResponseWriter stuffing (fresh_sink refuses_all) 4 "gzip").

(** ** Invariants of the writer *)


(** Still buffering, with nothing sent yet: the buffer holds [acc], the count
    of original bytes is its length, the tracking writer has counted nothing
    and the sink has the body [body0] it started with. *)
Definition buffering {A : algorithm} (rw : respWriter A) (acc body0 : list byte) : Prop :=
  buf rw = Some acc /\
  bytesWritten rw = wrap (len acc) /\
  tw_bytesWritten (trackingWriter rw) = 0 /\
  sk_body (sink_of rw) = body0.

(** Streaming: the encoder has been fed [chunks], and what it sent out for
    them is what the sink got on top of [body0]. *)
Definition streaming {A : algorithm} (rw : respWriter A) (chunks : list (list byte))
    (body0 : list byte) : Prop :=
  buf rw = None /\
  exists c out,
    compressor rw = Some c /\
    feed A (enc_new A) chunks = (c, out) /\
    sk_body (sink_of rw) = body0 ++ out.


(** The writes the encoder sees for a buffer: none for an empty buffer, one
    otherwise. *)
Definition buffer_chunk (data : list byte) : list (list byte) :=
  match data with
  | [] => []
  | _ :: _ => [data]
  end.

(** Where an error-free response stands after the body [w]: still buffering
    (and, once something was written, below the threshold), or streaming with
    the encoder fed exactly [w]. *)
Definition phase {A : algorithm} (rw : respWriter A) (wrote : bool) (w body0 : list byte)
  : Prop :=
  (buffering rw w body0 /\ (wrote = true -> wrap (len w) < threshold rw)) \/
  (exists chunks, streaming rw chunks body0 /\ concat chunks = w).


(** Sample responses for the concrete runs below. *)

Definition small_response : list op := [OpWriteString "SMALL BODY"].

Definition plain_response : list op :=
  [OpWrite (bytes_of "ab"); OpHeaderSet "Content-Length" "3"; OpWriteString "c"].

Definition large_response : list op :=
  [OpWrite (bytes_of "ab"); OpWriteHeader 200; OpWrite (bytes_of "cdefgh")].

(** A response closed on a transport that refuses the flush. *)
Definition refused_flush : respWriter stuffing :=
  run [OpWrite (bytes_of "ab")] (newResponseWriter stuffing (fresh_sink refuses_all) 4 "gzip").

(** A streaming writer whose transport breaks in its second write. *)
Definition breaking_stream : respWriter stuffing :=
  run [OpWrite (bytes_of "abcd")]
      (newResponseWriter stuffing (fresh_sink (breaks_at 1 5)) 4 "gzip").


(** ** The configuration and the two header pipelines

    The configuration, the negotiation engine (section 4.1 of the spec) and
    the decompression pipeline (section 4.3) live in the middleware handler,
    which is missing from the sources.  The definitions below follow the
    numbered steps of the spec.  A q-value is kept as the exact rational its
    decimal text denotes. *)

(** Modelled from the spec: the four algorithm identities (the algorithm
    table of the middleware is missing from the sources). *)
Inductive Algorithm : Type := Brotli | Gzip | Deflate | Zstd.

Definition all_algorithms : list Algorithm := [Brotli; Gzip; Deflate; Zstd].

(** Modelled from the spec: the identity token of an algorithm. *)
Definition token_of (a : Algorithm) : string :=
  match a with
  | Brotli => "br"
  | Gzip => "gzip"
  | Deflate => "deflate"
  | Zstd => "zstd"
  end.

(** Modelled from the spec: the algorithm a token names, if any. *)
Definition algorithm_of (name : string) : option Algorithm :=
  if String.eqb name "br" then Some Brotli
  else if String.eqb name "gzip" then Some Gzip
  else if String.eqb name "deflate" then Some Deflate
  else if String.eqb name "zstd" then Some Zstd
  else None.

(** Modelled from the spec: place in the fixed fallback order brotli, gzip,
    deflate, zstd (smaller is preferred). *)
Definition fallback_rank (a : Algorithm) : Z :=
  match a with
  | Brotli => 0
  | Gzip => 1
  | Deflate => 2
  | Zstd => 3
  end.

(** Modelled from the spec: what a request shows to the middleware. *)
Record request : Type := {
  Accept_Encoding : option string;
  Content_Encoding : option string;
  path : string
}.

(** Modelled from the spec: the configuration of section 3. *)
Record Configuration : Type := {
  enabled : Algorithm -> bool;
  level : Algorithm -> Z;
  priority : Algorithm -> Z;
  minCompressBytes : Z;
  maxDecodeSteps : Z;
  decompressEnabled : bool;
  excludePredicate : option (request -> bool)
}.

(** Modelled from the spec: the defaults of section 6. *)
Definition default_configuration : Configuration :=
  {| enabled := fun _ => true;
     level := fun _ => 0;
     priority := fun a => 3 - fallback_rank a;
     minCompressBytes := 512;
     maxDecodeSteps := 1;
     decompressEnabled := true;
     excludePredicate := None |}.

(** *** Header text *)

(** Split at every occurrence of [sep]; the empty string gives one empty
    piece. *)
Fixpoint split_on (sep : Ascii.ascii) (s : string) : list string :=
  match s with
  | EmptyString => [EmptyString]
  | String ch rest =>
      if Ascii.eqb ch sep then EmptyString :: split_on sep rest
      else match split_on sep rest with
           | [] => [String ch EmptyString]
           | t :: ts => String ch t :: ts
           end
  end.

Definition is_blank (ch : Ascii.ascii) : bool := Ascii.eqb ch " "%char || Ascii.eqb ch "009"%char.

Fixpoint trim_left (s : string) : string :=
  match s with
  | EmptyString => EmptyString
  | String ch rest => if is_blank ch then trim_left rest else s
  end.

Definition trim (s : string) : string :=
  String.rev (trim_left (String.rev (trim_left s))).

Definition digit_of (ch : Ascii.ascii) : option Z :=
  let n := Z.of_N (N_of_ascii ch) in
  if (48 <=? n) && (n <=? 57) then Some (n - 48) else None.

(** Value of a run of decimal digits after the digits already read. *)
Fixpoint digits_value (acc : Z) (s : string) : option Z :=
  match s with
  | EmptyString => Some acc
  | String ch rest =>
      match digit_of ch with
      | Some d => digits_value (10 * acc + d) rest
      | None => None
      end
  end.

(** A decimal numeral: digits, optionally a point and more digits, with a
    digit on at least one side of the point. *)
Definition parse_decimal (s : string) : option Q :=
  match split_on "."%char s with
  | [i] =>
      if String.eqb i "" then None
      else match digits_value 0 i with
           | Some a => Some (inject_Z a)
           | None => None
           end
  | [i; f] =>
      if String.eqb i "" && String.eqb f "" then None
      else match digits_value 0 i, digits_value 0 f with
           | Some a, Some b =>
               let scale := Z.to_pos (10 ^ Z.of_nat (String.length f)) in
               Some (Qmake (a * Z.pos scale + b) scale)
           | _, _ => None
           end
  | _ => None
  end.

(** Modelled from the spec: the weight given by one parameter; a parameter
    that is not [q=<value in 0..1>] counts as malformed and gives 1. *)
Definition parse_q (param : string) : Q :=
  match param with
  | String "q"%char (String "="%char value) =>
      match parse_decimal value with
      | Some v => if Qle_bool 0 v && Qle_bool v 1 then v else 1%Q
      | None => 1%Q
      end
  | _ => 1%Q
  end.

(** Modelled from the spec: one token, [name] or [name;q=<value>]. *)
Definition parse_token (tok : string) : string * Q :=
  match split_on ";"%char tok with
  | name :: param :: _ => (trim name, parse_q (trim param))
  | [name] => (trim name, 1%Q)
  | [] => (EmptyString, 1%Q)
  end.

(** Modelled from the spec: steps 2 and 3, the tokens of an Accept-Encoding
    header; an absent or empty header has none. *)
Definition header_tokens (h : option string) : list (string * Q) :=
  match h with
  | None => []
  | Some EmptyString => []
  | Some s => map parse_token (split_on ","%char s)
  end.

(** *** Negotiation *)

(** Modelled from the spec: an algorithm is rejected by name when a token
    with its name carries q = 0. *)
Definition rejected_by_name (tokens : list (string * Q)) (a : Algorithm) : bool :=
  existsb (fun t => String.eqb (fst t) (token_of a) && Qeq_bool (snd t) 0) tokens.

(** Modelled from the spec: step 4, the candidates one token contributes. *)
Definition token_candidates (cfg : Configuration) (tokens : list (string * Q))
    (t : string * Q) : list (Algorithm * Q) :=
  if Qeq_bool (snd t) 0 then []
  else if String.eqb (fst t) "*" then
    map (fun a => (a, snd t))
        (List.filter (fun a => enabled cfg a && negb (rejected_by_name tokens a))
                     all_algorithms)
  else match algorithm_of (fst t) with
       | Some a => if enabled cfg a then [(a, snd t)] else []
       | None => []
       end.

(** Modelled from the spec: step 4, all candidates of a header. *)
Definition candidates (cfg : Configuration) (tokens : list (string * Q))
  : list (Algorithm * Q) :=
  flat_map (token_candidates cfg tokens) tokens.

(** Modelled from the spec: step 5, [c1] comes before [c2] in the ordered key
    (q descending, then priority descending, then the fallback order). *)
Definition better (cfg : Configuration) (c1 c2 : Algorithm * Q) : bool :=
  if Qeq_bool (snd c1) (snd c2) then
    if priority cfg (fst c1) =? priority cfg (fst c2)
    then fallback_rank (fst c1) <? fallback_rank (fst c2)
    else priority cfg (fst c2) <? priority cfg (fst c1)
  else negb (Qle_bool (snd c1) (snd c2)).

(** Modelled from the spec: step 5, the better of the best so far and the
    next candidate; the earlier one stays when neither comes first. *)
Definition pick (cfg : Configuration) (best : option (Algorithm * Q)) (c : Algorithm * Q)
  : option (Algorithm * Q) :=
  match best with
  | None => Some c
  | Some b => if better cfg c b then Some c else Some b
  end.

(** Modelled from the spec: step 5, the first candidate in the ordered key. *)
Definition select (cfg : Configuration) (cands : list (Algorithm * Q))
  : option (Algorithm * Q) :=
  fold_left (pick cfg) cands None.

(** Modelled from the spec: step 1, the exclusion predicate. *)
Definition excludes (cfg : Configuration) (req : request) : bool :=
  match excludePredicate cfg with
  | Some p => p req
  | None => false
  end.

(** Modelled from the spec: the negotiation engine of the middleware
    handler, which is missing from the sources (section 4.1, steps 1 to 5). *)
Definition negotiate (cfg : Configuration) (req : request) : option Algorithm :=
  if excludes cfg req then None
  else match select cfg (candidates cfg (header_tokens (Accept_Encoding req))) with
       | Some (a, _) => Some a
       | None => None
       end.

(** The ordered key, as a relation: [c1] is not preferred to [c2]. *)
Definition key_le (cfg : Configuration) (c1 c2 : Algorithm * Q) : Prop :=
  (snd c1 < snd c2)%Q \/
  ((snd c1 == snd c2)%Q /\
   (priority cfg (fst c1) < priority cfg (fst c2) \/
    (priority cfg (fst c1) = priority cfg (fst c2) /\
     fallback_rank (fst c2) <= fallback_rank (fst c1)))).

(** The negotiation property in the words of the spec: the outcome is a
    candidate that no candidate is preferred to, and there is no outcome only
    when there is no candidate. *)
Definition negotiation_correct (cfg : Configuration) (req : request) : Prop :=
  let cands := candidates cfg (header_tokens (Accept_Encoding req)) in
  match negotiate cfg req with
  | Some a => exists q, In (a, q) cands /\ forall c, In c cands -> key_le cfg c (a, q)
  | None => cands = []
  end.

(** *** Request decoding *)

(** Modelled from the spec: the outcome of the decompression pipeline: the
    reader as it came, the reader wrapped in decoder stages, or rejection. *)
Inductive decoding : Type :=
| Unchanged
| Decoded (stages : list Algorithm)
| Rejected.

(** Modelled from the spec: a token names an enabled, known algorithm. *)
Definition supported (cfg : Configuration) (tok : string) : option Algorithm :=
  match algorithm_of (trim tok) with
  | Some a => if enabled cfg a then Some a else None
  | None => None
  end.

(** Modelled from the spec: steps 3 and 4: one stage per token while the
    budget lasts; an unsupported token, or a token left when the budget is
    used up, rejects. *)
Fixpoint decode_stages (cfg : Configuration) (steps : nat) (tokens : list string)
    (stages : list Algorithm) : decoding :=
  match tokens with
  | [] => Decoded stages
  | tok :: rest =>
      match steps with
      | O => Rejected
      | S steps' =>
          match supported cfg tok with
          | Some a => decode_stages cfg steps' rest (stages ++ [a])
          | None => Rejected
          end
      end
  end.

(** Modelled from the spec: the decompression pipeline of the middleware
    handler, which is missing from the sources (section 4.3, steps 1 to 4). *)
Definition decompress (cfg : Configuration) (req : request) : decoding :=
  if negb (decompressEnabled cfg) then Unchanged
  else match Content_Encoding req with
       | None => Unchanged
       | Some h => decode_stages cfg (Z.to_nat (maxDecodeSteps cfg)) (split_on ","%char h) []
       end.

(** Modelled from the spec: the first thing the handler does with a request.
    A rejected request is answered with the unsupported-media-type status and
    the application is not run; otherwise the application reads the body
    through the stages. *)
Inductive reception : Type :=
| Aborted (status : Z)
| Application (stages : list Algorithm).

Definition receive_request (cfg : Configuration) (req : request) : reception :=
  match decompress cfg req with
  | Rejected => Aborted 415
  | Unchanged => Application []
  | Decoded stages => Application stages
  end.

(** In the words of the claim: the token names an unknown algorithm, or a
    known one that is disabled. *)
Definition unknown_or_disabled (cfg : Configuration) (tok : string) : Prop :=
  algorithm_of (trim tok) = None \/
  exists a, algorithm_of (trim tok) = Some a /\ enabled cfg a = false.

(** The decoding property in the words of the spec. *)
Definition decoding_rejects (cfg : Configuration) (req : request) : Prop :=
  forall h,
    Content_Encoding req = Some h ->
    (exists tok, In tok (split_on ","%char h) /\ unknown_or_disabled cfg tok) \/
    maxDecodeSteps cfg < len (split_on ","%char h) ->
    decompress cfg req = Rejected /\ receive_request cfg req = Aborted 415.

(** Sample requests and configurations. *)

Definition get (accept : string) : request :=
  {| Accept_Encoding := Some accept; Content_Encoding := None; path := "/large" |}.

Definition post (content : string) : request :=
  {| Accept_Encoding := None; Content_Encoding := Some content; path := "/echo" |}.

Definition excluding_configuration : Configuration :=
  {| enabled := fun _ => true;
     level := fun _ => 0;
     priority := fun a => 3 - fallback_rank a;
     minCompressBytes := 512;
     maxDecodeSteps := 1;
     decompressEnabled := true;
     excludePredicate := Some (fun req => String.eqb (path req) "/large") |}.

Definition no_decompress_configuration : Configuration :=
  {| enabled := fun _ => true;
     level := fun _ => 0;
     priority := fun a => 3 - fallback_rank a;
     minCompressBytes := 512;
     maxDecodeSteps := 1;
     decompressEnabled := false;
     excludePredicate := None |}.


(** The live header map announces the encoding [e], and the header map on
    the wire is either still the one from before the call ([w0]) or one that
    announces it too. *)
Definition announced (e : string) (w0 : option Header) (tw : trackingResponseWriter) : Prop :=
  let says (h : Header) :=
    h !! "Content-Encoding"%string = Some [e] /\
    h !! "Vary"%string = Some ["Accept-Encoding"%string] in
  says (sk_header (tw_ResponseWriter tw)) /\
  (sk_wire (tw_ResponseWriter tw) = w0 \/
   exists h, sk_wire (tw_ResponseWriter tw) = Some h /\ says h).


(** A transport that never fails. *)
Definition reliable (s : sink) : Prop := forall i, sk_fault s i = None.

(** The writer sits on a reliable transport and, once swapped, has its
    compressor. *)
Definition ready {A : algorithm} (rw : respWriter A) : Prop :=
  reliable (sink_of rw) /\ (buf rw = None -> compressor rw <> None).


(** The handlers of the test router: [c.String(200, body)] sets the status,
    sets the content type and writes the body in one piece. *)
Definition gin_String (code : Z) (body : string) : list op :=
  [OpWriteHeader code; OpHeaderSet "Content-Type" "text/plain; charset=utf-8"; OpWriteString body].

Definition smallBody : string := "SMALL BODY".

Definition largeBody : string := String.concat "" (repeat "LARGE BODY"%string 256).

(** A response of the test router behind the middleware with its default
    threshold, closed at the end. *)
Definition serve (body : string) (encoding : string) : option error * respWriter stuffing :=
  Close stuffing
    (run (gin_String 200 body)
         (newResponseWriter stuffing (fresh_sink never_fails) 512 encoding)).


(** ** More of the two writers *)

(** [tw.Close()]: calls the handler with an uncompressed outcome whose two
    sizes are the byte count, and returns nil.  The result is the error and
    the data the handler is called with (the no-op handler when the writer
    was made without one). *)
Definition tracking_Close (tw : trackingResponseWriter) : option error * MetricsData :=
  (None,
   {| OriginalSize := tw_bytesWritten tw; CompressedSize := tw_bytesWritten tw;
      CompressionApplied := false; EncodingUsed := "" |}).

(** One call on a tracking writer used on its own. *)
Inductive tracking_op : Type :=
| TwWrite (b : list byte)
| TwWriteString (s : string).

Definition tracking_step (tw : trackingResponseWriter) (o : tracking_op)
  : trackingResponseWriter :=
  match o with
  | TwWrite b => snd (tracking_Write tw b)
  | TwWriteString s => snd (tracking_WriteString tw s)
  end.

Definition tracking_run (ops : list tracking_op) (tw : trackingResponseWriter)
  : trackingResponseWriter :=
  fold_left tracking_step ops tw.

(** The bytes of the writes that returned a nil error, in order. *)
Fixpoint accepted {A : algorithm} (ops : list op) (rw : respWriter A) : list byte :=
  match ops with
  | [] => []
  | o :: ops' =>
      match fst (step rw o) with
      | None => payload o ++ accepted ops' (snd (step rw o))
      | Some _ => accepted ops' (snd (step rw o))
      end
  end.

(** The sink holds [b0] and then the bytes the tracking writer has counted. *)
Definition tallied (b0 : list byte) (tw : trackingResponseWriter) : Prop :=
  exists extra,
    sk_body (tw_ResponseWriter tw) = b0 ++ extra /\
    tw_bytesWritten tw = wrap (len extra).

(** The header entry [k] is as in [h0]. *)
Definition same_entry (k : string) (h0 : Header) (tw : trackingResponseWriter) : Prop :=
  sk_header (tw_ResponseWriter tw) !! k = h0 !! k.

(** The header keys the writer itself edits. *)
Definition writer_key (k : string) : Prop :=
  k = "Content-Length"%string \/ k = "Content-Encoding"%string \/ k = "Vary"%string.


(** The passthrough property in the words of the spec: when the writer never
    swapped, the sink holds after [Close] the bytes the application wrote,
    and the count of bytes sent equals the count of original bytes. *)
Definition passthrough_claim (A : algorithm) (c : sink) (swapSize : Z) (encoding : string)
    (ops : list op) : Prop :=
  let rw := run ops (newResponseWriter A c swapSize encoding) in
  Swapped rw = false ->
  sk_body (sink_of (snd (Close A rw))) = sk_body c ++ written ops /\
  tw_bytesWritten (trackingWriter (snd (Close A rw))) = bytesWritten (snd (Close A rw)).


(** ** Arithmetic of [int] *)

Lemma wrap_small (z : Z) : is_int z -> wrap z = z.
Proof.
  unfold is_int, int_min, int_max, wrap. intros Hz.
  rewrite Z.mod_small; lia.
Qed.

Lemma wrap_wrap_add (a b : Z) : wrap (wrap a + b) = wrap (a + b).
Proof.
  unfold wrap.
  replace ((a + 2 ^ 63) mod 2 ^ 64 - 2 ^ 63 + b + 2 ^ 63)
    with ((a + 2 ^ 63) mod 2 ^ 64 + b) by lia.
  rewrite Zplus_mod_idemp_l. f_equal. f_equal. lia.
Qed.

Lemma len_app {X : Type} (l1 l2 : list X) : len (l1 ++ l2) = len l1 + len l2.
Proof. unfold len. rewrite length_app. lia. Qed.

Lemma len_nonneg {X : Type} (l : list X) : 0 <= len l.
Proof. unfold len. lia. Qed.

Lemma written_cons (o : op) (ops : list op) : written (o :: ops) = payload o ++ written ops.
Proof. reflexivity. Qed.

(** ** The swapped flag *)

Section SwappedFacts.

Variable A : algorithm.
Implicit Types (rw : respWriter A) (b : list byte) (o : op).

Lemma buf_map_header f rw : buf (map_header A f rw) = buf rw.
Proof. reflexivity. Qed.

Lemma swap_if_due_swapped rw b : buf rw = None -> swap_if_due A rw b = (None, rw).
Proof. intros H. unfold swap_if_due. now rewrite H. Qed.

Lemma dest_Write_swapped rw b : buf rw = None -> buf (snd (dest_Write A rw b)) = None.
Proof.
  intros H. unfold dest_Write. rewrite H.
  destruct (compressor rw) as [c|]; [|exact H].
  destruct (compressor_Write A c (trackingWriter rw) b) as [[[n err] c'] tw]. exact H.
Qed.

Lemma Write_keeps_swapped rw b : Swapped rw = true -> Swapped (snd (Write A rw b)) = true.
Proof.
  unfold Swapped. intros H. destruct (buf rw) as [data|] eqn:Hb; [discriminate|].
  unfold Write.
  rewrite swap_if_due_swapped by exact Hb.
  pose proof (dest_Write_swapped (map_header A (Header_Del "Content-Length") rw) b Hb) as Hd.
  destruct (dest_Write A _ b) as [[n err] rw2]. simpl in Hd.
  destruct err; simpl; now rewrite Hd.
Qed.

Lemma step_keeps_swapped rw o : Swapped rw = true -> Swapped (snd (step rw o)) = true.
Proof.
  intros H. destruct o; simpl; try exact H.
  - pose proof (Write_keeps_swapped rw b H) as Hw.
    destruct (Write A rw b) as [[n err] rw']. exact Hw.
  - unfold WriteString.
    pose proof (Write_keeps_swapped rw (String.list_byte_of_string s) H) as Hw.
    destruct (Write A rw _) as [[n err] rw']. exact Hw.
Qed.

Lemma run_keeps_swapped ops rw : Swapped rw = true -> Swapped (run ops rw) = true.
Proof.
  revert rw. induction ops as [|o ops IH]; intros rw H; [exact H|].
  simpl. apply IH. now apply step_keeps_swapped.
Qed.

Lemma Close_Swapped rw : Swapped (snd (Close A rw)) = Swapped rw.
Proof.
  unfold Close, Close_body, Swapped. destruct (buf rw) as [data|] eqn:Hb.
  - destruct (copy_to_sink (trackingWriter rw) data) as [[[n err] rest] tw].
    unfold Close_deferred, GetCompressionApplied, Swapped. reflexivity.
  - destruct (compressor rw) as [c|].
    + destruct (compressor_Close A c (trackingWriter rw)) as [err tw].
      unfold Close_deferred, GetCompressionApplied, Swapped. cbn. rewrite Hb. cbn. now rewrite Hb.
    + unfold Close_deferred, GetCompressionApplied, Swapped. cbn. rewrite Hb. cbn. now rewrite Hb.
Qed.

(** A write that flips the flag met the swap condition. *)
Lemma Write_flips rw b :
  Swapped rw = false -> Swapped (snd (Write A rw b)) = true ->
  exists data, buf rw = Some data /\ threshold rw <= int_add (len data) (len b).
Proof.
  unfold Swapped. intros H. destruct (buf rw) as [data|] eqn:Hb; [|discriminate].
  intros Hw. exists data. split; [reflexivity|].
  destruct (Z.leb_spec (threshold rw) (int_add (len data) (len b))) as [Hle|Hlt]; [exact Hle|].
  exfalso. revert Hw. unfold Write, swap_if_due. rewrite buf_map_header, Hb. simpl threshold.
  destruct (threshold rw <=? int_add (len data) (len b)) eqn:Hc; [apply Z.leb_le in Hc; lia|].
  unfold dest_Write. rewrite buf_map_header, Hb. simpl. discriminate.
Qed.

End SwappedFacts.

(** ** What each operation leaves alone *)

Section Frames.

Variable A : algorithm.
Implicit Types (rw : respWriter A) (b : list byte) (o : op) (tw : trackingResponseWriter).

Lemma swap_if_due_fields rw b :
  let rw' := snd (swap_if_due A rw b) in
  bytesWritten rw' = bytesWritten rw /\ reported rw' = reported rw /\
  threshold rw' = threshold rw /\ encoding rw' = encoding rw.
Proof.
  unfold swap_if_due. destruct (buf rw) as [data|]; [|now simpl].
  destruct (threshold rw <=? int_add (len data) (len b)); [|now simpl].
  destruct (copy_to_compressor A _ _ data) as [[[[copied err] rest] c] tw].
  destruct err; now simpl.
Qed.

Lemma dest_Write_fields rw b :
  let rw' := snd (dest_Write A rw b) in
  bytesWritten rw' = bytesWritten rw /\ reported rw' = reported rw /\
  threshold rw' = threshold rw /\ encoding rw' = encoding rw.
Proof.
  unfold dest_Write. destruct (buf rw) as [data|]; [now simpl|].
  destruct (compressor rw) as [c|]; [|now simpl].
  destruct (compressor_Write A c (trackingWriter rw) b) as [[[n err] c'] tw]. now simpl.
Qed.

Lemma Write_fields rw b :
  let rw' := snd (Write A rw b) in
  reported rw' = reported rw /\ threshold rw' = threshold rw /\ encoding rw' = encoding rw.
Proof.
  unfold Write.
  pose proof (swap_if_due_fields (map_header A (Header_Del "Content-Length") rw) b) as Hs.
  destruct (swap_if_due A _ b) as [[[copied e]|] rw1]; simpl in Hs; [simpl; tauto|].
  pose proof (dest_Write_fields rw1 b) as Hd.
  destruct (dest_Write A rw1 b) as [[n err] rw2]. simpl in Hd.
  destruct err; simpl; intuition congruence.
Qed.

Lemma step_fields rw o :
  let rw' := snd (step rw o) in
  reported rw' = reported rw /\ threshold rw' = threshold rw /\ encoding rw' = encoding rw.
Proof.
  destruct o; simpl; try tauto.
  - pose proof (Write_fields rw b) as H. destruct (Write A rw b) as [[n err] rw']. exact H.
  - unfold WriteString. pose proof (Write_fields rw (String.list_byte_of_string s)) as H.
    destruct (Write A rw _) as [[n err] rw']. exact H.
Qed.

Lemma run_fields ops rw :
  reported (run ops rw) = reported rw /\ threshold (run ops rw) = threshold rw /\
  encoding (run ops rw) = encoding rw.
Proof.
  revert rw. induction ops as [|o ops IH]; intros rw; [tauto|].
  simpl. pose proof (IH (snd (step rw o))) as H. pose proof (step_fields rw o) as H'.
  simpl in H'. intuition congruence.
Qed.

(** The error of a write leaves [bytesWritten] as it was; a nil error adds
    the reported count. *)
Lemma Write_error_count rw b n e rw' :
  Write A rw b = ((n, Some e), rw') -> bytesWritten rw' = bytesWritten rw.
Proof.
  unfold Write.
  pose proof (swap_if_due_fields (map_header A (Header_Del "Content-Length") rw) b) as Hs.
  destruct (swap_if_due A _ b) as [[[copied e0]|] rw1]; simpl in Hs.
  - intros [= _ _ <-]. tauto.
  - pose proof (dest_Write_fields rw1 b) as Hd.
    destruct (dest_Write A rw1 b) as [[n0 err] rw2]. simpl in Hd.
    destruct err; intros [= _ _ <-]. intuition congruence.
Qed.

Lemma Write_success_count rw b n rw' :
  Write A rw b = ((n, None), rw') -> bytesWritten rw' = int_add (bytesWritten rw) n.
Proof.
  unfold Write.
  pose proof (swap_if_due_fields (map_header A (Header_Del "Content-Length") rw) b) as Hs.
  destruct (swap_if_due A _ b) as [[[copied e0]|] rw1]; simpl in Hs; [discriminate|].
  pose proof (dest_Write_fields rw1 b) as Hd.
  destruct (dest_Write A rw1 b) as [[n0 err] rw2]. simpl in Hd.
  destruct err; [discriminate|]. intros [= <- <-]. simpl.
  f_equal. intuition congruence.
Qed.

(** [Close] calls the handler once, with the data of the writer it leaves. *)
Lemma Close_deferred_reported rw :
  reported (Close_deferred A rw) = reported rw ++ [GetMetricsData rw] /\
  GetMetricsData (Close_deferred A rw) = GetMetricsData rw.
Proof.
  unfold Close_deferred. destruct (GetCompressionApplied rw); split; reflexivity.
Qed.

Lemma Close_deferred_fields rw :
  trackingWriter (Close_deferred A rw) = trackingWriter rw /\
  bytesWritten (Close_deferred A rw) = bytesWritten rw /\
  buf (Close_deferred A rw) = buf rw.
Proof. unfold Close_deferred. destruct (GetCompressionApplied rw); auto. Qed.

Lemma Close_body_reported rw : reported (snd (Close_body A rw)) = reported rw.
Proof.
  unfold Close_body. destruct (buf rw) as [data|].
  - destruct (copy_to_sink (trackingWriter rw) data) as [[[n err] rest] tw]. reflexivity.
  - destruct (compressor rw) as [c|]; [|reflexivity].
    destruct (compressor_Close A c (trackingWriter rw)) as [err tw]. reflexivity.
Qed.

Lemma Close_reported rw :
  reported (snd (Close A rw)) = reported rw ++ [GetMetricsData (snd (Close A rw))].
Proof.
  unfold Close. pose proof (Close_body_reported rw) as Hb.
  destruct (Close_body A rw) as [err rw1]. cbn [fst snd] in *.
  destruct (Close_deferred_reported rw1) as [-> ->]. now rewrite Hb.
Qed.

Lemma metrics_sizes_agree rw :
  CompressionApplied (GetMetricsData rw) = false ->
  CompressedSize (GetMetricsData rw) = OriginalSize (GetMetricsData rw).
Proof.
  simpl. unfold GetCompressedSize, GetOriginalSize. now intros ->.
Qed.

End Frames.

(** ** Content-Length *)

Section ContentLength.

Variable A : algorithm.
Implicit Types (rw : respWriter A) (b : list byte) (tw : trackingResponseWriter).

Lemma sink_Write_header (s : sink) b : sk_header (snd (sink_Write s b)) = sk_header s.
Proof. unfold sink_Write. destruct (sk_fault s (sk_calls s)) as [[k e]|]; reflexivity. Qed.

Lemma sink_Write_wire (s : sink) b :
  sk_wire (snd (sink_Write s b)) =
  match sk_wire s with None => Some (sk_header s) | Some h => Some h end.
Proof. unfold sink_Write. destruct (sk_fault s (sk_calls s)) as [[k e]|]; reflexivity. Qed.









End ContentLength.


(** C10. When the destination of a write (the compressor stream; the buffer
    never fails) returns an error, [Write] returns the same count and error
    and [bytesWritten] keeps its value; the same holds when the copy of the
    buffer into a new compressor fails; only a write that returns a nil error
    adds its count. *)
Theorem write_error_leaves_count (A : algorithm) (rw : respWriter A) (b : list byte) :
  (forall rw1 n e rw2,
      swap_if_due A (map_header A (Header_Del "Content-Length") rw) b = (None, rw1) ->
      dest_Write A rw1 b = ((n, Some e), rw2) ->
      Write A rw b = ((n, Some e), rw2) /\ bytesWritten rw2 = bytesWritten rw) /\
  (forall n e rw', Write A rw b = ((n, Some e), rw') -> bytesWritten rw' = bytesWritten rw) /\
  (forall n rw', Write A rw b = ((n, None), rw') ->
                 bytesWritten rw' = int_add (bytesWritten rw) n).
Proof.
  split; [|split].
  - intros rw1 n e rw2 Hs Hd.
    assert (Write A rw b = ((n, Some e), rw2)) as Hw.
    { unfold Write. rewrite Hs, Hd. reflexivity. }
    split; [exact Hw|]. eapply Write_error_count; exact Hw.
  - intros n e rw'. apply Write_error_count.
  - intros n rw'. apply Write_success_count.
Qed.

(** C3. Closing the writer of any response, whatever the application did
    with it and whatever the transport does, calls the metrics handler
    exactly once, also when [Close] returns an error; the data it gets is
    that of the closed writer, and when compression was not applied its
    compressed size equals its original size. *)
Theorem metrics_reported_once (A : algorithm) (c : sink) (swapSize : Z) (encoding : string)
    (ops : list op) (err : option error) (rw' : respWriter A) :
  Close A (run ops (newResponseWriter A c swapSize encoding)) = (err, rw') ->
  exists m,
    reported rw' = [m] /\
    m = GetMetricsData rw' /\
    (CompressionApplied m = false -> CompressedSize m = OriginalSize m).
Proof.
  intros Hc. exists (GetMetricsData rw').
  pose proof (Close_reported A (run ops (newResponseWriter A c swapSize encoding))) as Hr.
  rewrite Hc in Hr. cbn [snd] in Hr.
  destruct (run_fields A ops (newResponseWriter A c swapSize encoding)) as (Hrep & _).
  rewrite Hrep in Hr. cbn in Hr.
  split; [exact Hr|]. split; [reflexivity|]. apply metrics_sizes_agree.
Qed.

(** C8. A new writer is not swapped; no operation of the application and no
    [Close] takes a swapped writer back; [Close] never changes the flag; the
    flag goes up only in a write, and only when buffer length plus write
    length reaches the threshold; once up it stays up for the rest of the
    response. *)
Theorem swapped_is_monotonic (A : algorithm) :
  (forall c swapSize encoding, Swapped (newResponseWriter A c swapSize encoding) = false) /\
  (forall (rw : respWriter A) o, Swapped rw = true -> Swapped (snd (step rw o)) = true) /\
  (forall (rw : respWriter A), Swapped (snd (Close A rw)) = Swapped rw) /\
  (forall (rw : respWriter A) o,
      Swapped rw = false -> Swapped (snd (step rw o)) = true ->
      is_write o = true /\
      exists data, buf rw = Some data /\
                   threshold rw <= int_add (len data) (len (payload o))) /\
  (forall (rw : respWriter A) ops1 ops2,
      Swapped (run ops1 rw) = true -> Swapped (run (ops1 ++ ops2) rw) = true).
Proof.
  split; [reflexivity|]. split; [apply step_keeps_swapped|].
  split; [apply Close_Swapped|]. split.
  - intros rw o H0 H1.
    destruct o; cbn [step snd] in H1;
      try (change (Swapped rw = true) in H1; congruence).
    + split; [reflexivity|]. apply Write_flips; [exact H0|]. cbn [payload].
      destruct (Write A rw b) as [[n err] rw']. exact H1.
    + split; [reflexivity|]. apply Write_flips; [exact H0|]. cbn [payload].
      unfold WriteString in H1.
      destruct (Write A rw _) as [[n err] rw']. exact H1.
  - intros rw ops1 ops2 H. unfold run. rewrite fold_left_app. now apply run_keeps_swapped.
Qed.

(** ** While the writer buffers *)

Section Buffering.

Variable A : algorithm.
Implicit Types (rw : respWriter A) (b acc pre : list byte) (o : op).

(** Below the threshold a write only appends to the buffer. *)
Lemma Write_below rw acc pre b :
  buffering rw acc pre ->
  int_add (len acc) (len b) < threshold rw ->
  exists rw',
    Write A rw b = ((len b, None), rw') /\
    buffering rw' (acc ++ b) pre /\
    Header_of rw' = Header_Del "Content-Length" (Header_of rw) /\
    sk_wire (sink_of rw') = sk_wire (sink_of rw).
Proof.
  intros (Hb & Hn & Ht & Hs) Hlt.
  unfold Write, swap_if_due. rewrite buf_map_header, Hb. cbn [threshold map_header set_tracker].
  destruct (Z.leb_spec (threshold rw) (int_add (len acc) (len b))) as [Hle|_]; [lia|].
  unfold dest_Write. rewrite buf_map_header, Hb.
  eexists. split; [reflexivity|]. split; [|split; reflexivity].
  repeat split; cbn; try assumption.
  rewrite Hn. unfold int_add. rewrite wrap_wrap_add, len_app. reflexivity.
Qed.

Lemma step_below rw acc pre o :
  buffering rw acc pre ->
  (is_write o = true -> int_add (len acc) (len (payload o)) < threshold rw) ->
  fst (step rw o) = None /\
  buffering (snd (step rw o)) (acc ++ payload o) pre /\
  (forall k, k <> "Content-Length"%string ->
             Header_of (snd (step rw o)) !! k = app_header_step o (Header_of rw) !! k).
Proof.
  intros Hb Hlt. destruct o; cbn [payload is_write] in *.
  - destruct (Write_below rw acc pre b Hb (Hlt eq_refl)) as (rw' & Hw & Hb' & Hh & _).
    cbn [step]. rewrite Hw. cbn. split; [reflexivity|]. split; [exact Hb'|].
    intros k Hk. rewrite Hh. unfold Header_Del. now rewrite lookup_delete_ne.
  - destruct (Write_below rw acc pre (String.list_byte_of_string s) Hb (Hlt eq_refl))
      as (rw' & Hw & Hb' & Hh & _).
    cbn [step]. unfold WriteString. rewrite Hw. cbn. split; [reflexivity|]. split; [exact Hb'|].
    intros k Hk. rewrite Hh. unfold Header_Del. now rewrite lookup_delete_ne.
  - rewrite app_nil_r. split; [reflexivity|]. split; [exact Hb|].
    intros k Hk. cbn. unfold Header_Del. now rewrite lookup_delete_ne.
  - rewrite app_nil_r. split; [reflexivity|]. split; [exact Hb|]. reflexivity.
  - rewrite app_nil_r. split; [reflexivity|]. split; [exact Hb|]. reflexivity.
Qed.

Lemma app_header_step_ext o (h1 h2 : Header) k :
  h1 !! k = h2 !! k -> app_header_step o h1 !! k = app_header_step o h2 !! k.
Proof.
  intros H. destruct o; cbn; try exact H.
  - unfold Header_Set. destruct (decide (k0 = k)) as [->|Hne].
    + now rewrite !lookup_insert_eq.
    + now rewrite !lookup_insert_ne.
  - unfold Header_Del. destruct (decide (k0 = k)) as [->|Hne].
    + now rewrite !lookup_delete_eq.
    + now rewrite !lookup_delete_ne.
Qed.

Lemma app_header_ext ops (h1 h2 : Header) k :
  h1 !! k = h2 !! k -> app_header ops h1 !! k = app_header ops h2 !! k.
Proof.
  revert h1 h2. induction ops as [|o ops IH]; intros h1 h2 H; [exact H|].
  cbn. apply IH. now apply app_header_step_ext.
Qed.

(** A body that stays below the threshold is buffered to the end. *)
Lemma run_below ops rw acc pre :
  buffering rw acc pre ->
  is_int (threshold rw) ->
  len acc + len (written ops) < threshold rw ->
  buffering (run ops rw) (acc ++ written ops) pre /\
  faults ops rw = [] /\
  (forall k, k <> "Content-Length"%string ->
             Header_of (run ops rw) !! k = app_header ops (Header_of rw) !! k).
Proof.
  revert rw acc. induction ops as [|o ops IH]; intros rw acc Hb Hi Hlt.
  - cbn. rewrite app_nil_r. auto.
  - rewrite written_cons, len_app in Hlt.
    pose proof (len_nonneg acc). pose proof (len_nonneg (payload o)).
    pose proof (len_nonneg (written ops)).
    destruct (step_below rw acc pre o Hb) as (He & Hb' & Hh).
    { intros _. unfold int_add. rewrite wrap_small; [lia|].
      unfold is_int, int_min, int_max in *. lia. }
    destruct (step_fields A rw o) as (_ & Ht & _).
    destruct (IH (snd (step rw o)) (acc ++ payload o) Hb') as (Hb'' & Hf & Hh').
    { now rewrite Ht. }
    { rewrite Ht, len_app. lia. }
    cbn [run fold_left faults]. rewrite He. fold (run ops (snd (step rw o))).
    rewrite written_cons, app_assoc. split; [exact Hb''|]. split; [exact Hf|].
    intros k Hk. rewrite Hh' by exact Hk.
    change (app_header (o :: ops) (Header_of rw))
      with (app_header ops (app_header_step o (Header_of rw))).
    apply app_header_ext. now apply Hh.
Qed.

(** The data reported by [Close] when the writer still buffers. *)
Lemma Close_buffering_metrics rw data :
  buf rw = Some data ->
  GetMetricsData (snd (Close A rw)) =
  {| OriginalSize := bytesWritten rw; CompressedSize := bytesWritten rw;
     CompressionApplied := false; EncodingUsed := "" |}.
Proof.
  intros Hb. unfold Close, Close_body. rewrite Hb.
  destruct (copy_to_sink (trackingWriter rw) data) as [[[n err] rest] tw].
  cbn [snd]. destruct (Close_deferred_reported A (set_tracker A tw (set_buf A (Some rest) rw))) as [_ ->].
  reflexivity.
Qed.

End Buffering.

(** C1. When the whole body is shorter than the threshold, the writer is
    never swapped, the Content-Encoding and Vary entries of the header map
    are exactly what the application's own header edits made them (the
    writer sets neither), and closing reports one MetricsData with
    compression not applied, an empty encoding, and both sizes equal to the
    body size. *)
Theorem small_body_not_compressed (A : algorithm) (c : sink) (swapSize : Z)
    (encoding : string) (ops : list op) :
  is_int swapSize ->
  len (written ops) < swapSize ->
  let rw := run ops (newResponseWriter A c swapSize encoding) in
  Swapped rw = false /\
  Header_of rw !! "Content-Encoding"%string =
    app_header ops (sk_header c) !! "Content-Encoding"%string /\
  Header_of rw !! "Vary"%string = app_header ops (sk_header c) !! "Vary"%string /\
  reported (snd (Close A rw)) =
    [ {| OriginalSize := len (written ops); CompressedSize := len (written ops);
         CompressionApplied := false; EncodingUsed := "" |} ].
Proof.
  intros Hi Hlt rw.
  assert (buffering (newResponseWriter A c swapSize encoding) [] (sk_body c)) as Hb0.
  { repeat split. }
  destruct (run_below A ops _ [] (sk_body c) Hb0 Hi) as (Hb & _ & Hh).
  { cbn [threshold newResponseWriter]. change (len (@nil byte)) with 0. lia. }
  fold rw in Hb, Hh. cbn [app] in Hb. destruct Hb as (Hbuf & Hn & _).
  split; [unfold Swapped; now rewrite Hbuf|].
  split; [apply Hh; discriminate|]. split; [apply Hh; discriminate|].
  rewrite Close_reported.
  destruct (run_fields A ops (newResponseWriter A c swapSize encoding)) as (Hrep & _).
  fold rw in Hrep. rewrite Hrep. cbn [reported newResponseWriter app].
  rewrite (Close_buffering_metrics A rw _ Hbuf), Hn.
  rewrite wrap_small; [reflexivity|].
  pose proof (len_nonneg (written ops)). unfold is_int, int_min, int_max in *. lia.
Qed.

(** ** Responses without errors *)

Section ErrorFree.

Variable A : algorithm.
Implicit Types (rw : respWriter A) (b acc pre w : list byte) (o : op)
  (tw : trackingResponseWriter) (c : enc A).

Lemma tracking_Write_ok tw out n tw' :
  tracking_Write tw out = ((n, None), tw') ->
  n = len out /\
  sk_body (tw_ResponseWriter tw') = sk_body (tw_ResponseWriter tw) ++ out /\
  tw_bytesWritten tw' = int_add (tw_bytesWritten tw) (len out).
Proof.
  unfold tracking_Write, sink_Write.
  destruct (sk_fault (tw_ResponseWriter tw) (sk_calls (tw_ResponseWriter tw))) as [[k e]|];
    [discriminate|].
  intros [= <- <-]. auto.
Qed.

Lemma compressor_Write_ok c tw b n c' tw' :
  compressor_Write A c tw b = ((n, None), c', tw') ->
  n = len b /\
  exists out, enc_write A c b = (c', out) /\
              sk_body (tw_ResponseWriter tw') = sk_body (tw_ResponseWriter tw) ++ out.
Proof.
  unfold compressor_Write. destruct (enc_write A c b) as [c1 [|x out]].
  - intros [= <- <- <-]. split; [reflexivity|]. exists []. now rewrite app_nil_r.
  - destruct (tracking_Write tw (x :: out)) as [[m err] tw1] eqn:Ht.
    destruct err; [discriminate|]. intros [= <- <- <-].
    apply tracking_Write_ok in Ht as (_ & Hb & _). eauto.
Qed.

Lemma copy_to_compressor_ok c tw data m rest c' tw' :
  copy_to_compressor A c tw data = ((m, None), rest, c', tw') ->
  exists out, feed A c (buffer_chunk data) = (c', out) /\
              sk_body (tw_ResponseWriter tw') = sk_body (tw_ResponseWriter tw) ++ out.
Proof.
  unfold copy_to_compressor. destruct data as [|x data].
  - intros [= _ _ <- <-]. exists []. now rewrite app_nil_r.
  - destruct (compressor_Write A c tw (x :: data)) as [[[k err] c1] tw1] eqn:Hc.
    destruct err; [discriminate|].
    destruct (k =? len (x :: data)); [|discriminate].
    intros [= _ _ <- <-].
    apply compressor_Write_ok in Hc as (_ & out & He & Hb).
    exists out. cbn [buffer_chunk feed]. rewrite He, app_nil_r. auto.
Qed.

Lemma feed_snoc c chunks b c1 (y1 : list byte) c2 (y2 : list byte) :
  feed A c chunks = (c1, y1) -> enc_write A c1 b = (c2, y2) ->
  feed A c (chunks ++ [b]) = (c2, y1 ++ y2).
Proof.
  revert c c1 y1. induction chunks as [|x chunks IH]; intros c c1 y1 Hf He.
  - cbn in Hf. injection Hf as <- <-. cbn. rewrite He. now rewrite app_nil_r.
  - cbn in Hf |- *. destruct (enc_write A c x) as [cx ox].
    destruct (feed A cx chunks) as [cy oy] eqn:Hy. injection Hf as <- <-.
    rewrite (IH cx cy oy Hy He). now rewrite app_assoc.
Qed.

Lemma concat_buffer_chunk acc : concat (buffer_chunk acc) = acc.
Proof. destruct acc; cbn; [reflexivity|]. now rewrite app_nil_r. Qed.

(** At the threshold, a write that returns no error leaves the writer
    streaming, the encoder fed with the buffer and then the write. *)
Lemma Write_due rw acc pre b n rw' :
  buffering rw acc pre ->
  threshold rw <= int_add (len acc) (len b) ->
  Write A rw b = ((n, None), rw') ->
  streaming rw' (buffer_chunk acc ++ [b]) pre.
Proof.
  intros (Hb & Hn & Ht & Hs) Hle.
  unfold Write, swap_if_due. rewrite buf_map_header, Hb. cbn [threshold map_header set_tracker].
  destruct (Z.leb_spec (threshold rw) (int_add (len acc) (len b))) as [_|Hlt]; [|lia].
  match goal with |- context [copy_to_compressor A ?c0 ?tw0 acc] =>
    destruct (copy_to_compressor A c0 tw0 acc) as [[[[copied err] rest] c1] tw1] eqn:Hc
  end.
  destruct err; [discriminate|].
  apply copy_to_compressor_ok in Hc as (o1 & Hf & Hb1).
  unfold dest_Write. cbn [buf set_buf set_tracker set_compressor compressor trackingWriter].
  destruct (compressor_Write A c1 tw1 b) as [[[k err] c2] tw2] eqn:Hw.
  destruct err; [discriminate|]. intros [= _ <-].
  apply compressor_Write_ok in Hw as (_ & o2 & He & Hb2).
  split; [reflexivity|]. exists c2, (o1 ++ o2). split; [reflexivity|].
  split; [now apply feed_snoc with c1|].
  unfold sink_of. cbn. rewrite Hb2, Hb1. cbn. unfold sink_of in Hs. rewrite Hs.
  now rewrite app_assoc.
Qed.

Lemma Write_streaming rw chunks pre b n rw' :
  streaming rw chunks pre ->
  Write A rw b = ((n, None), rw') ->
  streaming rw' (chunks ++ [b]) pre.
Proof.
  intros (Hb & c & out & Hc & Hf & Hs).
  unfold Write. rewrite swap_if_due_swapped by exact Hb.
  unfold dest_Write. rewrite buf_map_header, Hb.
  cbn [compressor map_header set_tracker trackingWriter]. rewrite Hc.
  destruct (compressor_Write A c _ b) as [[[k err] c2] tw2] eqn:Hw.
  destruct err; [discriminate|]. intros [= _ <-].
  apply compressor_Write_ok in Hw as (_ & o2 & He & Hb2).
  split; [exact Hb|]. exists c2, (out ++ o2). split; [reflexivity|].
  split; [now apply feed_snoc with c|].
  unfold sink_of in *. cbn. rewrite Hb2. cbn. rewrite Hs. now rewrite app_assoc.
Qed.

Lemma Write_phase rw wrote w pre b n rw' :
  phase rw wrote w pre ->
  Write A rw b = ((n, None), rw') ->
  phase rw' true (w ++ b) pre.
Proof.
  intros [[Hb _]|(chunks & Hs & Hc)] Hw.
  - destruct (Z.lt_ge_cases (int_add (len w) (len b)) (threshold rw)) as [Hlt|Hge].
    + destruct (Write_below A rw w pre b Hb Hlt) as (rw1 & Hw1 & Hb1 & _).
      rewrite Hw in Hw1. injection Hw1 as _ <-. left. split; [exact Hb1|].
      intros _. destruct (Write_fields A rw b) as (_ & Ht & _). rewrite Hw in Ht.
      cbn [snd] in Ht. rewrite Ht, len_app. exact Hlt.
    + right. exists (buffer_chunk w ++ [b]). split; [now apply Write_due with rw n|].
      rewrite concat_app, concat_buffer_chunk. cbn. now rewrite app_nil_r.
  - right. exists (chunks ++ [b]). split; [now apply Write_streaming with rw n|].
    rewrite concat_app, Hc. cbn. now rewrite app_nil_r.
Qed.

Lemma step_phase rw wrote w pre o :
  phase rw wrote w pre ->
  fst (step rw o) = None ->
  phase (snd (step rw o)) (wrote || is_write o) (w ++ payload o) pre.
Proof.
  intros Hp He. destruct o; cbn [payload is_write step] in *;
    rewrite ?orb_true_r, ?orb_false_r, ?app_nil_r; try exact Hp.
  - destruct (Write A rw b) as [[n err] rw'] eqn:Hw. cbn [fst snd] in *. subst err.
    now apply Write_phase with rw wrote n.
  - unfold WriteString in *.
    destruct (Write A rw _) as [[n err] rw'] eqn:Hw. cbn [fst snd] in *. subst err.
    now apply Write_phase with rw wrote n.
Qed.

Lemma faults_cons_nil o ops rw :
  faults (o :: ops) rw = [] -> fst (step rw o) = None /\ faults ops (snd (step rw o)) = [].
Proof. cbn. destruct (fst (step rw o)); [discriminate|auto]. Qed.

Lemma run_phase ops rw wrote w pre :
  phase rw wrote w pre ->
  faults ops rw = [] ->
  phase (run ops rw) (wrote || existsb is_write ops) (w ++ written ops) pre.
Proof.
  revert rw wrote w. induction ops as [|o ops IH]; intros rw wrote w Hp Hf.
  - cbn. now rewrite orb_false_r, app_nil_r.
  - apply faults_cons_nil in Hf as [He Hf].
    pose proof (IH _ _ _ (step_phase rw wrote w pre o Hp He) Hf) as H.
    cbn [run fold_left existsb]. fold (run ops (snd (step rw o))).
    now rewrite written_cons, app_assoc, orb_assoc.
Qed.

Lemma phase_new (s : sink) swapSize encoding :
  phase (newResponseWriter A s swapSize encoding) false [] (sk_body s).
Proof. left. split; [repeat split|discriminate]. Qed.

(** Closing a buffering writer without error hands the buffer to the sink. *)
Lemma Close_buffering rw acc pre rw' :
  buffering rw acc pre ->
  Close A rw = (None, rw') ->
  sk_body (sink_of rw') = pre ++ acc /\
  tw_bytesWritten (trackingWriter rw') = bytesWritten rw' /\
  bytesWritten rw' = bytesWritten rw.
Proof.
  intros (Hb & Hn & Ht & Hs). unfold Close, Close_body. rewrite Hb.
  unfold copy_to_sink, sink_of in *. destruct acc as [|x acc].
  - intros [= <-].
    destruct (Close_deferred_fields A (set_tracker A (trackingWriter rw) (set_buf A (Some []) rw)))
      as (-> & -> & _).
    cbn. rewrite app_nil_r, Ht, Hn. auto.
  - destruct (tracking_Write (trackingWriter rw) (x :: acc)) as [[m err] tw] eqn:Hw.
    destruct err; [intros [= ]|].
    apply tracking_Write_ok in Hw as (-> & Hbody & Hcount).
    rewrite Z.eqb_refl. intros [= <-].
    destruct (Close_deferred_fields A (set_tracker A tw (set_buf A (Some []) rw)))
      as (-> & -> & _).
    cbn. rewrite Hbody, Hs, Hcount, Ht, Hn. auto.
Qed.

(** Closing a streaming writer without error completes the encoded stream. *)
Lemma Close_streaming rw chunks pre rw' :
  streaming rw chunks pre ->
  Close A rw = (None, rw') ->
  sk_body (sink_of rw') = pre ++ stream A chunks /\ Swapped rw' = true.
Proof.
  intros (Hb & c & out & Hc & Hf & Hs). unfold Close, Close_body. rewrite Hb, Hc.
  unfold compressor_Close, stream, Swapped, sink_of in *. rewrite Hf.
  destruct (enc_close A c) as [|x tail] eqn:Hcl.
  - intros [= <-].
    match goal with |- context [Close_deferred A ?r] =>
      destruct (Close_deferred_fields A r) as (-> & _ & ->) end.
    cbn. rewrite Hb, Hs, app_nil_r. auto.
  - destruct (tracking_Write (trackingWriter rw) (x :: tail)) as [[m err] tw] eqn:Hw.
    destruct err; [intros [= ]|].
    apply tracking_Write_ok in Hw as (_ & Hbody & _). intros [= <-].
    destruct (Close_deferred_fields A (set_tracker A tw rw)) as (-> & _ & ->).
    cbn. rewrite Hb, Hbody, Hs, app_assoc. auto.
Qed.

End ErrorFree.

(** ** Reliable transports *)

Section Reliable.

Variable A : algorithm.
Implicit Types (rw : respWriter A) (b : list byte) (o : op) (tw : trackingResponseWriter).

Lemma tracking_Write_reliable tw b :
  reliable (tw_ResponseWriter tw) ->
  fst (tracking_Write tw b) = (len b, None) /\
  reliable (tw_ResponseWriter (snd (tracking_Write tw b))).
Proof.
  intros Hr. unfold tracking_Write, sink_Write. rewrite Hr. cbn. split; [reflexivity|exact Hr].
Qed.

Lemma compressor_Write_reliable (c : enc A) tw b :
  reliable (tw_ResponseWriter tw) ->
  fst (fst (compressor_Write A c tw b)) = (len b, None) /\
  reliable (tw_ResponseWriter (snd (compressor_Write A c tw b))).
Proof.
  intros Hr. unfold compressor_Write.
  destruct (enc_write A c b) as [c' [|x out]]; [split; [reflexivity|exact Hr]|].
  destruct (tracking_Write_reliable tw (x :: out) Hr) as [Hf Hr'].
  destruct (tracking_Write tw (x :: out)) as [[m err] tw']. cbn [fst snd] in *.
  injection Hf as _ ->. split; [reflexivity|exact Hr'].
Qed.

Lemma copy_to_compressor_reliable (c : enc A) tw data :
  reliable (tw_ResponseWriter tw) ->
  snd (fst (fst (fst (copy_to_compressor A c tw data)))) = None /\
  reliable (tw_ResponseWriter (snd (copy_to_compressor A c tw data))).
Proof.
  intros Hr. unfold copy_to_compressor. destruct data as [|x data]; [split; [reflexivity|exact Hr]|].
  destruct (compressor_Write_reliable c tw (x :: data) Hr) as [Hf Hr'].
  destruct (compressor_Write A c tw (x :: data)) as [[[m err] c'] tw']. cbn [fst snd] in *.
  injection Hf as -> ->. rewrite Z.eqb_refl. split; [reflexivity|exact Hr'].
Qed.

Lemma swap_if_due_reliable rw b :
  ready rw -> fst (swap_if_due A rw b) = None /\ ready (snd (swap_if_due A rw b)).
Proof.
  intros Hrdy. pose proof Hrdy as [Hr Hc].
  unfold swap_if_due. destruct (buf rw) as [data|] eqn:Hb.
  - destruct (threshold rw <=? int_add (len data) (len b)).
    + match goal with |- context [copy_to_compressor A ?c0 ?tw0 data] =>
        destruct (copy_to_compressor_reliable c0 tw0 data Hr) as [He Hr'];
        destruct (copy_to_compressor A c0 tw0 data) as [[[[copied err] rest] c1] tw1]
      end.
      cbn [fst snd] in *. subst err. cbn. split; [reflexivity|]. split; [exact Hr'|discriminate].
    + split; [reflexivity|exact Hrdy].
  - split; [reflexivity|exact Hrdy].
Qed.

Lemma dest_Write_reliable rw b :
  ready rw -> snd (fst (dest_Write A rw b)) = None /\ ready (snd (dest_Write A rw b)).
Proof.
  intros [Hr Hc]. unfold dest_Write. destruct (buf rw) as [data|] eqn:Hb.
  - split; [reflexivity|]. split; [exact Hr|discriminate].
  - destruct (compressor rw) as [c|]; [|now destruct (Hc eq_refl)].
    destruct (compressor_Write_reliable c (trackingWriter rw) b Hr) as [Hf Hr'].
    destruct (compressor_Write A c (trackingWriter rw) b) as [[[n err] c'] tw].
    cbn [fst snd] in *. injection Hf as _ ->. split; [reflexivity|]. split; [exact Hr'|discriminate].
Qed.

Lemma Write_reliable rw b :
  ready rw -> snd (fst (Write A rw b)) = None /\ ready (snd (Write A rw b)).
Proof.
  intros Hr. unfold Write.
  assert (ready (map_header A (Header_Del "Content-Length") rw)) as Hr0 by exact Hr.
  destruct (swap_if_due_reliable _ b Hr0) as [Hs Hr1].
  destruct (swap_if_due A _ b) as [early rw1]. cbn [fst snd] in *. subst early.
  destruct (dest_Write_reliable rw1 b Hr1) as [Hd Hr2].
  destruct (dest_Write A rw1 b) as [[n err] rw2]. cbn [fst snd] in *. subst err.
  split; [reflexivity|exact Hr2].
Qed.

Lemma step_reliable rw o : ready rw -> fst (step rw o) = None /\ ready (snd (step rw o)).
Proof.
  intros Hr. destruct o; cbn [step]; try (split; [reflexivity|exact Hr]).
  - destruct (Write_reliable rw b Hr) as [He Hr'].
    destruct (Write A rw b) as [[n err] rw']. cbn [fst snd] in *. now subst err.
  - unfold WriteString. destruct (Write_reliable rw (String.list_byte_of_string s) Hr) as [He Hr'].
    destruct (Write A rw _) as [[n err] rw']. cbn [fst snd] in *. now subst err.
Qed.

Lemma run_reliable ops rw : ready rw -> faults ops rw = [] /\ ready (run ops rw).
Proof.
  revert rw. induction ops as [|o ops IH]; intros rw Hr; [split; [reflexivity|exact Hr]|].
  destruct (step_reliable rw o Hr) as [He Hr']. cbn [faults run fold_left]. rewrite He.
  now apply IH.
Qed.

Lemma Close_reliable rw : ready rw -> fst (Close A rw) = None.
Proof.
  intros [Hr Hc]. unfold Close, Close_body. destruct (buf rw) as [data|].
  - unfold copy_to_sink. destruct data as [|x data]; [reflexivity|].
    destruct (tracking_Write_reliable (trackingWriter rw) (x :: data) Hr) as [Hf _].
    destruct (tracking_Write (trackingWriter rw) (x :: data)) as [[m err] tw].
    cbn [fst] in Hf. injection Hf as -> ->. now rewrite Z.eqb_refl.
  - destruct (compressor rw) as [c|]; [|now destruct (Hc eq_refl)].
    unfold compressor_Close. destruct (enc_close A c) as [|x out]; [reflexivity|].
    destruct (tracking_Write_reliable (trackingWriter rw) (x :: out) Hr) as [Hf _].
    destruct (tracking_Write (trackingWriter rw) (x :: out)) as [[m err] tw].
    cbn [fst] in Hf. injection Hf as _ ->. reflexivity.
Qed.

(** On a transport that never fails no call of a response returns an error. *)
Lemma reliable_transport_error_free (c : sink) (swapSize : Z) (encoding : string)
    (ops : list op) :
  reliable c ->
  faults ops (newResponseWriter A c swapSize encoding) = [] /\
  fst (Close A (run ops (newResponseWriter A c swapSize encoding))) = None.
Proof.
  intros Hr.
  assert (ready (newResponseWriter A c swapSize encoding)) as H0 by (split; [exact Hr|discriminate]).
  destruct (run_reliable ops _ H0) as [Hf Hr']. split; [exact Hf|]. now apply Close_reliable.
Qed.

End Reliable.

(** C4. For a response that went through without an error and whose writer
    was never swapped, the sink holds after [Close] what it held before,
    followed by the bytes the application wrote, in order; and the count of
    bytes sent to the transport equals the count of original bytes. *)
Theorem passthrough_is_identity (A : algorithm) (c : sink) (swapSize : Z)
    (encoding : string) (ops : list op) (rw' : respWriter A) :
  let rw := run ops (newResponseWriter A c swapSize encoding) in
  faults ops (newResponseWriter A c swapSize encoding) = [] ->
  Swapped rw = false ->
  Close A rw = (None, rw') ->
  sk_body (sink_of rw') = sk_body c ++ written ops /\
  tw_bytesWritten (trackingWriter rw') = bytesWritten rw' /\
  CompressedSize (GetMetricsData rw') = OriginalSize (GetMetricsData rw').
Proof.
  intros rw Hf Hsw Hcl.
  pose proof (run_phase A ops _ false [] (sk_body c) (phase_new A c swapSize encoding) Hf) as Hp.
  fold rw in Hp. cbn [app] in Hp.
  destruct Hp as [[Hb _]|(chunks & (Hb & _) & _)].
  - destruct (Close_buffering A rw _ _ rw' Hb Hcl) as (H1 & H2 & _).
    split; [exact H1|]. split; [exact H2|].
    cbn. unfold GetCompressedSize, GetOriginalSize. rewrite H2.
    now destruct (GetCompressionApplied rw').
  - unfold Swapped in Hsw. rewrite Hb in Hsw. discriminate.
Qed.

(** C9. With a codec whose decoder undoes its encoder, a response that went
    through without an error and whose body, written through the writer,
    reaches the threshold is compressed, and decoding what the sink received
    gives back the bytes the application wrote. *)
Theorem round_trip (A : algorithm) (c : sink) (swapSize : Z) (encoding : string)
    (ops : list op) (rw' : respWriter A) :
  lossless A ->
  sk_body c = [] ->
  existsb is_write ops = true ->
  swapSize <= len (written ops) <= int_max ->
  faults ops (newResponseWriter A c swapSize encoding) = [] ->
  Close A (run ops (newResponseWriter A c swapSize encoding)) = (None, rw') ->
  Swapped rw' = true /\
  dec A (sk_body (sink_of rw')) = Some (written ops).
Proof.
  intros Hl Hc0 Hw Hsz Hf Hcl.
  pose proof (run_phase A ops _ false [] (sk_body c) (phase_new A c swapSize encoding) Hf) as Hp.
  cbn [app orb] in Hp. rewrite Hw in Hp.
  destruct Hp as [[_ Hlt]|(chunks & Hs & Hc)].
  - exfalso. specialize (Hlt eq_refl).
    destruct (run_fields A ops (newResponseWriter A c swapSize encoding)) as (_ & Ht & _).
    rewrite Ht in Hlt. cbn [threshold newResponseWriter] in Hlt.
    pose proof (len_nonneg (written ops)).
    rewrite wrap_small in Hlt; [lia|]. unfold is_int, int_min, int_max in *. lia.
  - destruct (Close_streaming A _ chunks _ rw' Hs Hcl) as [Hb Hsw].
    split; [exact Hsw|]. rewrite Hb, Hc0. cbn [app]. rewrite Hl. now rewrite Hc.
Qed.

(** ** The stuffing codec is lossless *)

Lemma stuff_app (b1 b2 : list byte) : stuff (b1 ++ b2) = stuff b1 ++ stuff b2.
Proof. unfold stuff. apply flat_map_app. Qed.

Lemma feed_stuffing (chunks : list (list byte)) (started : bool) :
  feed stuffing started chunks =
  match chunks with
  | [] => (started, [])
  | _ :: _ => (true, magic started ++ stuff (concat chunks))
  end.
Proof.
  revert started. induction chunks as [|b rest IH]; intros started; [reflexivity|].
  cbn [feed stuffing enc_write]. rewrite IH. destruct rest as [|b' rest].
  - cbn [concat]. now rewrite !app_nil_r.
  - cbn [magic app]. change (concat (b :: b' :: rest)) with (b ++ concat (b' :: rest)).
    now rewrite stuff_app, app_assoc.
Qed.

Lemma unstuff_stuff (w : list byte) (fuel : nat) :
  (length w < fuel)%nat -> unstuff fuel (stuff w ++ [x00]) = Some w.
Proof.
  revert fuel. induction w as [|x w IH]; intros fuel Hf.
  - destruct fuel; [lia|reflexivity].
  - destruct fuel as [|fuel]; [cbn in Hf; lia|].
    cbn [stuff flat_map app]. fold (stuff w).
    cbn [unstuff]. rewrite IH by (cbn in Hf; lia). reflexivity.
Qed.

Lemma length_stuff (w : list byte) : length (stuff w) = (2 * length w)%nat.
Proof. induction w as [|x w IH]; cbn; [reflexivity|]. fold (stuff w). lia. Qed.

Lemma stuffing_lossless : lossless stuffing.
Proof.
  intros chunks. unfold stream. rewrite feed_stuffing.
  assert (forall w, dec stuffing (x1f :: stuff w ++ [x00]) = Some w) as Hdec.
  { intros w. cbn [dec stuffing]. apply unstuff_stuff.
    rewrite length_app, length_stuff. cbn. lia. }
  destruct chunks as [|b rest].
  - exact (Hdec []).
  - cbn [magic enc_close stuffing app]. rewrite <- app_assoc. apply Hdec.
Qed.

(** ** Concrete runs *)

Lemma small_body_not_compressed_witness :
  is_int 512 /\ len (written small_response) < 512 /\
  let rw := run small_response (newResponseWriter stuffing (fresh_sink never_fails) 512 "gzip") in
  Swapped rw = false /\
  Header_of rw !! "Content-Encoding"%string =
    app_header small_response (sk_header (fresh_sink never_fails)) !! "Content-Encoding"%string /\
  Header_of rw !! "Vary"%string =
    app_header small_response (sk_header (fresh_sink never_fails)) !! "Vary"%string /\
  reported (snd (Close stuffing rw)) =
    [ {| OriginalSize := len (written small_response);
         CompressedSize := len (written small_response);
         CompressionApplied := false; EncodingUsed := "" |} ].
Proof.
  assert (is_int 512) as Hi by (unfold is_int, int_min, int_max; lia).
  assert (len (written small_response) < 512) as Hl by (vm_compute; reflexivity).
  split; [exact Hi|]. split; [exact Hl|].
  exact (small_body_not_compressed stuffing (fresh_sink never_fails) 512 "gzip"
           small_response Hi Hl).
Defined.

Lemma metrics_reported_once_witness :
  Close stuffing (run [OpWrite (bytes_of "ab")]
                      (newResponseWriter stuffing (fresh_sink refuses_all) 4 "gzip"))
    = (Some (ErrTransport 0), snd (Close stuffing refused_flush)) /\
  exists m,
    reported (snd (Close stuffing refused_flush)) = [m] /\
    m = GetMetricsData (snd (Close stuffing refused_flush)) /\
    (CompressionApplied m = false -> CompressedSize m = OriginalSize m).
Proof.
  assert (Close stuffing (run [OpWrite (bytes_of "ab")]
                              (newResponseWriter stuffing (fresh_sink refuses_all) 4 "gzip"))
          = (Some (ErrTransport 0), snd (Close stuffing refused_flush))) as Hc
    by (vm_compute; reflexivity).
  split; [exact Hc|].
  exact (metrics_reported_once stuffing (fresh_sink refuses_all) 4 "gzip"
           [OpWrite (bytes_of "ab")] _ _ Hc).
Defined.

Lemma passthrough_is_identity_witness :
  let new := newResponseWriter stuffing (fresh_sink never_fails) 4 "gzip" in
  let rw' := snd (Close stuffing (run plain_response new)) in
  faults plain_response new = [] /\
  Swapped (run plain_response new) = false /\
  Close stuffing (run plain_response new) = (None, rw') /\
  sk_body (sink_of rw') = sk_body (fresh_sink never_fails) ++ written plain_response /\
  tw_bytesWritten (trackingWriter rw') = bytesWritten rw' /\
  CompressedSize (GetMetricsData rw') = OriginalSize (GetMetricsData rw').
Proof.
  intros new rw'.
  assert (faults plain_response new = []) as Hf by (vm_compute; reflexivity).
  assert (Swapped (run plain_response new) = false) as Hs by (vm_compute; reflexivity).
  assert (Close stuffing (run plain_response new) = (None, rw')) as Hc
    by (vm_compute; reflexivity).
  split; [exact Hf|]. split; [exact Hs|]. split; [exact Hc|].
  exact (passthrough_is_identity stuffing (fresh_sink never_fails) 4 "gzip"
           plain_response rw' Hf Hs Hc).
Defined.

(** C4 as stated fails when the transport fails.  First response: the
    flush in [Close] is refused, [Close] returns the error and the sink has
    nothing.  Second response: the copy of the buffer into a new compressor
    fails half way (the failed swap), the writer stays unswapped, [Close]
    returns nil, and the sink holds the compressor's first bytes followed by
    the rest of the buffer. *)
Lemma passthrough_fails_on_transport_errors :
  (fst (Close stuffing refused_flush) = Some (ErrTransport 0) /\
   sk_body (sink_of (snd (Close stuffing refused_flush))) = [] /\
   ~ passthrough_claim stuffing (fresh_sink refuses_all) 4 "gzip" [OpWrite (bytes_of "ab")]) /\
  (let ops := [OpWrite (bytes_of "abcdef"); OpWrite (bytes_of "gh")] in
   let rw := run ops (newResponseWriter stuffing (fresh_sink (breaks_at 0 7)) 8 "gzip") in
   faults ops (newResponseWriter stuffing (fresh_sink (breaks_at 0 7)) 8 "gzip")
     = [ErrTransport 1] /\
   Swapped rw = false /\
   fst (Close stuffing rw) = None /\
   sk_body (sink_of (snd (Close stuffing rw))) =
     [x1f; x01] ++ bytes_of "a" ++ [x01] ++ bytes_of "b" ++ [x01] ++ bytes_of "cdef" /\
   tw_bytesWritten (trackingWriter (snd (Close stuffing rw))) = 10 /\
   bytesWritten (snd (Close stuffing rw)) = 6 /\
   ~ passthrough_claim stuffing (fresh_sink (breaks_at 0 7)) 8 "gzip" ops).
Proof.
  split.
  - split; [vm_compute; reflexivity|]. split; [vm_compute; reflexivity|].
    unfold passthrough_claim. vm_compute. intros H. destruct (H eq_refl) as [_ H2].
    discriminate H2.
  - cbv zeta. repeat (split; [vm_compute; reflexivity|]).
    unfold passthrough_claim. vm_compute. intros H. destruct (H eq_refl) as [_ H2].
    discriminate H2.
Qed.

Lemma round_trip_witness :
  let new := newResponseWriter stuffing (fresh_sink never_fails) 4 "gzip" in
  let rw' := snd (Close stuffing (run large_response new)) in
  lossless stuffing /\
  sk_body (fresh_sink never_fails) = [] /\
  existsb is_write large_response = true /\
  4 <= len (written large_response) <= int_max /\
  faults large_response new = [] /\
  Close stuffing (run large_response new) = (None, rw') /\
  Swapped rw' = true /\
  dec stuffing (sk_body (sink_of rw')) = Some (written large_response).
Proof.
  intros new rw'.
  assert (4 <= len (written large_response) <= int_max) as Hsz
    by (unfold int_max; vm_compute; split; discriminate).
  assert (faults large_response new = []) as Hf by (vm_compute; reflexivity).
  assert (Close stuffing (run large_response new) = (None, rw')) as Hc
    by (vm_compute; reflexivity).
  split; [exact stuffing_lossless|]. split; [reflexivity|]. split; [reflexivity|].
  split; [exact Hsz|]. split; [exact Hf|]. split; [exact Hc|].
  exact (round_trip stuffing (fresh_sink never_fails) 4 "gzip" large_response rw'
           stuffing_lossless eq_refl eq_refl Hsz Hf Hc).
Defined.

Lemma write_error_leaves_count_witness :
  let b := bytes_of "efgh" in
  let rw1 := map_header stuffing (Header_Del "Content-Length") breaking_stream in
  let rw2 := snd (dest_Write stuffing rw1 b) in
  swap_if_due stuffing rw1 b = (None, rw1) /\
  dest_Write stuffing rw1 b = ((2, Some (ErrTransport 1)), rw2) /\
  Write stuffing breaking_stream b = ((2, Some (ErrTransport 1)), rw2) /\
  bytesWritten rw2 = bytesWritten breaking_stream.
Proof.
  intros b rw1 rw2.
  assert (swap_if_due stuffing rw1 b = (None, rw1)) as Hs by (vm_compute; reflexivity).
  assert (dest_Write stuffing rw1 b = ((2, Some (ErrTransport 1)), rw2)) as Hd
    by (vm_compute; reflexivity).
  split; [exact Hs|]. split; [exact Hd|].
  exact (proj1 (write_error_leaves_count stuffing breaking_stream b) rw1 2 _ rw2 Hs Hd).
Defined.


Lemma swapped_is_monotonic_witness :
  Swapped breaking_stream = true /\
  Swapped (snd (step breaking_stream (OpWrite (bytes_of "efgh")))) = true.
Proof.
  assert (Swapped breaking_stream = true) as Hs by (vm_compute; reflexivity).
  split; [exact Hs|].
  exact (proj1 (proj2 (swapped_is_monotonic stuffing)) breaking_stream
           (OpWrite (bytes_of "efgh")) Hs).
Defined.

(** ** The encoding headers and the first body byte *)

Section Announce.

Variable A : algorithm.
Implicit Types (rw : respWriter A) (b : list byte) (tw : trackingResponseWriter).

Lemma announced_tracking_Write e w0 tw b :
  announced e w0 tw -> announced e w0 (snd (tracking_Write tw b)).
Proof.
  unfold announced, tracking_Write. intros [Hh Hw].
  pose proof (sink_Write_header (tw_ResponseWriter tw) b) as H1.
  pose proof (sink_Write_wire (tw_ResponseWriter tw) b) as H2.
  destruct (sink_Write (tw_ResponseWriter tw) b) as [[n err] s]. cbn [fst snd] in *.
  cbn [tw_ResponseWriter]. rewrite H1, H2. split; [exact Hh|].
  destruct (sk_wire (tw_ResponseWriter tw)) as [h|]; [exact Hw|].
  right. eauto.
Qed.

Lemma announced_compressor_Write e w0 (c : enc A) tw b :
  announced e w0 tw -> announced e w0 (snd (compressor_Write A c tw b)).
Proof.
  intros H. unfold compressor_Write.
  destruct (enc_write A c b) as [c' [|x out]]; [exact H|].
  pose proof (announced_tracking_Write e w0 tw (x :: out) H) as Ht.
  destruct (tracking_Write tw (x :: out)) as [[m err] tw']. destruct err; exact Ht.
Qed.

Lemma announced_copy_to_compressor e w0 (c : enc A) tw data :
  announced e w0 tw -> announced e w0 (snd (copy_to_compressor A c tw data)).
Proof.
  intros H. unfold copy_to_compressor. destruct data as [|x data]; [exact H|].
  pose proof (announced_compressor_Write e w0 c tw (x :: data) H) as Hc.
  destruct (compressor_Write A c tw (x :: data)) as [[[m err] c'] tw'].
  destruct err; [exact Hc|]. destruct (m =? len (x :: data)); exact Hc.
Qed.

(** A write that reaches the threshold while buffering sets both headers
    before the compressor is created: whatever reaches the wire during the
    write leaves under headers that announce the encoding.  This holds
    whether or not the copy of the buffer succeeds. *)
Lemma encoding_announced_before_body rw data b :
  buf rw = Some data ->
  threshold rw <= int_add (len data) (len b) ->
  announced (encoding rw) (sk_wire (sink_of rw)) (trackingWriter (snd (Write A rw b))).
Proof.
  intros Hb Hle. unfold Write, swap_if_due. rewrite buf_map_header, Hb.
  cbn [threshold map_header set_tracker].
  destruct (Z.leb_spec (threshold rw) (int_add (len data) (len b))) as [_|Hlt]; [|lia].
  match goal with |- context [copy_to_compressor A ?c0 ?tw0 data] =>
    pose proof (announced_copy_to_compressor (encoding rw) (sk_wire (sink_of rw)) c0 tw0 data) as Hc;
    destruct (copy_to_compressor A c0 tw0 data) as [[[[copied err] rest] c1] tw1]
  end.
  cbn [snd] in Hc.
  assert (announced (encoding rw) (sk_wire (sink_of rw)) tw1) as Ha.
  { apply Hc. unfold announced, Header_Set, Header_Del. cbn.
    split; [|now left]. split.
    - rewrite lookup_insert_ne by discriminate. apply lookup_insert_eq.
    - apply lookup_insert_eq. }
  destruct err as [e|]; [exact Ha|].
  unfold dest_Write. cbn [buf set_buf set_tracker set_compressor compressor trackingWriter].
  pose proof (announced_compressor_Write _ _ c1 tw1 b Ha) as Hd.
  destruct (compressor_Write A c1 tw1 b) as [[[k err] c2] tw2]. destruct err; exact Hd.
Qed.

End Announce.

(** C2. The response of the failed swap: the buffer copy into the new
    compressor fails after the headers were set, [Write] returns early and
    the buffer is kept.  Content-Encoding and Vary are on the response, yet
    the writer is not swapped and the handler is told that no compression
    was applied. *)
Theorem headers_set_without_swap :
  faults [OpWrite (bytes_of "ab"); OpWrite (bytes_of "cdefgh")]
         (newResponseWriter stuffing (fresh_sink refuses_all) 4 "gzip")
    = [ErrTransport 0] /\
  Header_Get "Content-Encoding" (Header_of failed_swap) = "gzip"%string /\
  Header_Get "Vary" (Header_of failed_swap) = "Accept-Encoding"%string /\
  Swapped failed_swap = false /\
  fst (Close stuffing failed_swap) = Some (ErrTransport 0) /\
  reported (snd (Close stuffing failed_swap)) =
    [ {| OriginalSize := 2; CompressedSize := 2;
         CompressionApplied := false; EncodingUsed := "" |} ].
Proof. vm_compute. repeat split. Qed.

(** ** Negotiation *)

Section Negotiation.

Variable cfg : Configuration.
Implicit Types (c b : Algorithm * Q) (cands : list (Algorithm * Q)).

Lemma key_le_refl c : key_le cfg c c.
Proof. right. split; [reflexivity|]. right. split; [reflexivity|lia]. Qed.

Lemma key_le_trans c1 c2 c3 : key_le cfg c1 c2 -> key_le cfg c2 c3 -> key_le cfg c1 c3.
Proof.
  unfold key_le.
  intros [H12|[E12 H12]] [H23|[E23 H23]].
  - left. now apply Qlt_trans with (snd c2).
  - left. now rewrite <- E23.
  - left. now rewrite E12.
  - right. split; [now rewrite E12|]. lia.
Qed.

Lemma better_true c b : better cfg c b = true -> key_le cfg b c.
Proof.
  unfold better, key_le. destruct (Qeq_bool (snd c) (snd b)) eqn:Hq.
  - apply Qeq_bool_iff in Hq. intros H. right. split; [now symmetry|].
    destruct (Z.eqb_spec (priority cfg (fst c)) (priority cfg (fst b))) as [Hp|Hp].
    + apply Z.ltb_lt in H. lia.
    + apply Z.ltb_lt in H. lia.
  - intros H. left. apply negb_true_iff in H.
    apply Qnot_le_lt. intros Hle. apply Qle_bool_iff in Hle. congruence.
Qed.

Lemma better_false c b : better cfg c b = false -> key_le cfg c b.
Proof.
  unfold better, key_le. destruct (Qeq_bool (snd c) (snd b)) eqn:Hq.
  - apply Qeq_bool_iff in Hq. intros H. right. split; [exact Hq|].
    destruct (Z.eqb_spec (priority cfg (fst c)) (priority cfg (fst b))) as [Hp|Hp].
    + apply Z.ltb_ge in H. lia.
    + apply Z.ltb_ge in H. lia.
  - intros H. left. apply negb_false_iff, Qle_bool_iff in H.
    apply Qle_lteq in H as [H|H]; [exact H|].
    apply Qeq_bool_iff in H. congruence.
Qed.

Lemma fold_pick cands b :
  exists b',
    fold_left (pick cfg) cands (Some b) = Some b' /\
    (b' = b \/ In b' cands) /\
    key_le cfg b b' /\
    (forall c, In c cands -> key_le cfg c b').
Proof.
  revert b. induction cands as [|c cands IH]; intros b.
  - exists b. cbn. split; [reflexivity|]. split; [now left|].
    split; [apply key_le_refl|]. intros c [].
  - cbn [fold_left pick]. destruct (better cfg c b) eqn:Hb.
    + destruct (IH c) as (b' & Hf & Hin & Hle & Hall). exists b'.
      split; [exact Hf|]. split; [right; destruct Hin as [->|Hin]; [now left|now right]|].
      split; [apply key_le_trans with c; [now apply better_true|exact Hle]|].
      intros c' [<-|Hc']; [exact Hle|now apply Hall].
    + destruct (IH b) as (b' & Hf & Hin & Hle & Hall). exists b'.
      split; [exact Hf|]. split; [destruct Hin as [->|Hin]; [now left|right; now right]|].
      split; [exact Hle|].
      intros c' [<-|Hc']; [|now apply Hall].
      apply key_le_trans with b; [now apply better_false|exact Hle].
Qed.

(** The selection returns a candidate that none is preferred to, and nothing
    only for no candidates. *)
Lemma select_best cands :
  match select cfg cands with
  | Some b => In b cands /\ forall c, In c cands -> key_le cfg c b
  | None => cands = []
  end.
Proof.
  unfold select. destruct cands as [|c cands]; [reflexivity|].
  cbn [fold_left pick]. destruct (fold_pick cands c) as (b' & -> & Hin & Hle & Hall).
  split.
  - destruct Hin as [->|Hin]; [now left|now right].
  - intros c' [<-|Hc']; [exact Hle|now apply Hall].
Qed.

Lemma algorithm_of_token name a : algorithm_of name = Some a -> name = token_of a.
Proof.
  unfold algorithm_of.
  destruct (String.eqb_spec name "br"); [intros [= <-]; assumption|].
  destruct (String.eqb_spec name "gzip"); [intros [= <-]; assumption|].
  destruct (String.eqb_spec name "deflate"); [intros [= <-]; assumption|].
  destruct (String.eqb_spec name "zstd"); [intros [= <-]; assumption|].
  discriminate.
Qed.

Lemma parse_q_range param : (0 <= parse_q param <= 1)%Q.
Proof.
  assert (0 <= 1 <= 1)%Q as H1 by (split; [discriminate|apply Qle_refl]).
  unfold parse_q.
  repeat match goal with
         | |- context [match ?x with _ => _ end] => is_var x; destruct x
         end; try exact H1.
  match goal with |- context [parse_decimal ?value] =>
    destruct (parse_decimal value) as [v|]; [|exact H1] end.
  destruct (Qle_bool 0 v) eqn:H0; [|exact H1].
  destruct (Qle_bool v 1) eqn:H2; [|exact H1].
  cbn [andb]. split; now apply Qle_bool_iff.
Qed.

Lemma parse_token_range tok : (0 <= snd (parse_token tok) <= 1)%Q.
Proof.
  assert (0 <= 1 <= 1)%Q as H1 by (split; [discriminate|apply Qle_refl]).
  unfold parse_token. destruct (split_on ";" tok) as [|name [|param rest]]; try exact H1.
  apply parse_q_range.
Qed.

Lemma header_tokens_range h t : In t (header_tokens h) -> (0 <= snd t <= 1)%Q.
Proof.
  unfold header_tokens. destruct h as [[|ch s]|]; try (intros []).
  intros Hin. apply in_map_iff in Hin as (tok & <- & _). apply parse_token_range.
Qed.

(** What makes a candidate: an enabled algorithm, with the nonzero weight of
    a token that names it or is the wildcard. *)
Lemma candidates_sound tokens a q :
  In (a, q) (candidates cfg tokens) ->
  enabled cfg a = true /\ ~ (q == 0)%Q /\
  exists name, In (name, q) tokens /\ (name = token_of a \/ name = "*"%string).
Proof.
  unfold candidates. intros Hin. apply in_flat_map in Hin as ([name q'] & Ht & Hc).
  unfold token_candidates in Hc. cbn [fst snd] in Hc.
  destruct (Qeq_bool q' 0) eqn:Hq; [destruct Hc|].
  assert (~ (q' == 0)%Q) as Hq' by (intros E; apply Qeq_bool_iff in E; congruence).
  destruct (String.eqb_spec name "*") as [->|Hn].
  - apply in_map_iff in Hc as (a' & [= -> ->] & Hf).
    apply filter_In in Hf as [_ Hf]. apply andb_true_iff in Hf as [He _].
    split; [exact He|]. split; [exact Hq'|]. exists "*"%string. auto.
  - destruct (algorithm_of name) as [a'|] eqn:Ha; [|destruct Hc].
    destruct (enabled cfg a') eqn:He; [|destruct Hc].
    destruct Hc as [[= -> ->]|[]].
    split; [exact He|]. split; [exact Hq'|]. exists name. split; [exact Ht|].
    left. now apply algorithm_of_token.
Qed.

Lemma candidates_all_zero tokens :
  (forall t, In t tokens -> (snd t == 0)%Q) -> candidates cfg tokens = [].
Proof.
  intros H. unfold candidates.
  assert (forall ts, (forall t, In t ts -> (snd t == 0)%Q) ->
                     flat_map (token_candidates cfg tokens) ts = []) as Hgen.
  { induction ts as [|t ts IH]; intros Hts; [reflexivity|].
    cbn [flat_map]. rewrite IH by (intros t' Ht'; apply Hts; now right).
    unfold token_candidates.
    assert (Qeq_bool (snd t) 0 = true) as ->
      by (apply Qeq_bool_iff, Hts; now left).
    reflexivity. }
  now apply Hgen.
Qed.

End Negotiation.

(** *** Which algorithms are candidates *)

Lemma algorithm_of_token_of (a : Algorithm) : algorithm_of (token_of a) = Some a.
Proof. destruct a; reflexivity. Qed.

Lemma token_of_not_wildcard (a : Algorithm) : token_of a <> "*"%string.
Proof. destruct a; discriminate. Qed.

Lemma in_all_algorithms (a : Algorithm) : In a all_algorithms.
Proof. destruct a; cbn; tauto. Qed.

(** An algorithm is rejected by name exactly when a token with its name has
    q = 0. *)
Lemma rejected_by_name_iff (tokens : list (string * Q)) (a : Algorithm) :
  rejected_by_name tokens a = true <->
  exists q, In (token_of a, q) tokens /\ (q == 0)%Q.
Proof.
  unfold rejected_by_name. rewrite existsb_exists. split.
  - intros ([name q] & Hin & H). cbn [fst snd] in H. apply andb_true_iff in H as [Hn Hq].
    apply String.eqb_eq in Hn. subst name. apply Qeq_bool_iff in Hq. eauto.
  - intros (q & Hin & Hq). exists (token_of a, q). split; [exact Hin|]. cbn [fst snd].
    apply andb_true_iff. split; [apply String.eqb_refl|now apply Qeq_bool_iff].
Qed.

(** The candidates of a header are exactly the enabled algorithms with the
    nonzero weight of a token that names them, or of a wildcard token when
    no token rejects them by name. *)
Lemma candidates_iff (cfg : Configuration) (tokens : list (string * Q)) (a : Algorithm) (q : Q) :
  In (a, q) (candidates cfg tokens) <->
  enabled cfg a = true /\ ~ (q == 0)%Q /\
  (In (token_of a, q) tokens \/
   (In ("*"%string, q) tokens /\ rejected_by_name tokens a = false)).
Proof.
  unfold candidates. rewrite in_flat_map. split.
  - intros ([name q'] & Ht & Hc). unfold token_candidates in Hc. cbn [fst snd] in Hc.
    destruct (Qeq_bool q' 0) eqn:Hq; [destruct Hc|].
    assert (~ (q' == 0)%Q) as Hq' by (intros E; apply Qeq_bool_iff in E; congruence).
    destruct (String.eqb_spec name "*") as [->|Hn].
    + apply in_map_iff in Hc as (a' & [= -> ->] & Hf).
      apply filter_In in Hf as [_ Hf]. apply andb_true_iff in Hf as [He Hr].
      apply negb_true_iff in Hr. auto.
    + destruct (algorithm_of name) as [a'|] eqn:Ha; [|destruct Hc].
      destruct (enabled cfg a') eqn:He; [|destruct Hc].
      destruct Hc as [[= -> ->]|[]].
      apply algorithm_of_token in Ha. subst name. auto.
  - intros (He & Hq & [Ht|[Ht Hr]]).
    + exists (token_of a, q). split; [exact Ht|]. unfold token_candidates. cbn [fst snd].
      assert (Qeq_bool q 0 = false) as ->.
      { destruct (Qeq_bool q 0) eqn:E; [|reflexivity]. apply Qeq_bool_iff in E. tauto. }
      destruct (String.eqb_spec (token_of a) "*") as [E|_];
        [now apply token_of_not_wildcard in E|].
      rewrite algorithm_of_token_of, He. now left.
    + exists ("*"%string, q). split; [exact Ht|]. unfold token_candidates. cbn [fst snd].
      assert (Qeq_bool q 0 = false) as ->.
      { destruct (Qeq_bool q 0) eqn:E; [|reflexivity]. apply Qeq_bool_iff in E. tauto. }
      cbn [String.eqb Ascii.eqb Bool.eqb]. apply in_map_iff. exists a. split; [reflexivity|].
      apply filter_In. split; [apply in_all_algorithms|]. now rewrite He, Hr.
Qed.

(** C5, as the spec-modelled engine has it.  When the exclusion predicate
    holds for the request, nothing is negotiated.  Otherwise the negotiated
    algorithm is a candidate that no candidate comes before in the order q
    descending, priority descending, fallback order brotli, gzip, deflate,
    zstd, and there is no algorithm exactly when there is no candidate,
    hence for an absent or empty header and when every token has q = 0.
    The candidates are exactly the enabled algorithms with the weight q > 0
    of a token that names them, or of a wildcard token when no token rejects
    them by name with q = 0. *)
Theorem negotiation_selects_best (cfg : Configuration) (req : request) :
  let tokens := header_tokens (Accept_Encoding req) in
  (excludes cfg req = true -> negotiate cfg req = None) /\
  (excludes cfg req = false ->
   negotiation_correct cfg req /\
   (Accept_Encoding req = None \/ Accept_Encoding req = Some ""%string ->
    negotiate cfg req = None) /\
   ((forall t, In t tokens -> (snd t == 0)%Q) -> negotiate cfg req = None)) /\
  (forall a q,
      In (a, q) (candidates cfg tokens) <->
      enabled cfg a = true /\ (0 < q)%Q /\
      (In (token_of a, q) tokens \/
       (In ("*"%string, q) tokens /\
        ~ exists q0, In (token_of a, q0) tokens /\ (q0 == 0)%Q))).
Proof.
  intros tokens. split; [|split].
  - intros Hex. unfold negotiate. now rewrite Hex.
  - intros Hex.
    assert (negotiation_correct cfg req) as Hcorrect.
    { unfold negotiation_correct, negotiate. rewrite Hex.
      pose proof (select_best cfg (candidates cfg (header_tokens (Accept_Encoding req)))) as Hs.
      destruct (select cfg _) as [[a q]|]; [|exact Hs].
      exists q. exact Hs. }
    split; [exact Hcorrect|]. split.
    + intros H. unfold negotiate. rewrite Hex.
      assert (header_tokens (Accept_Encoding req) = []) as ->
        by (destruct H as [-> | ->]; reflexivity).
      reflexivity.
    + intros H. unfold negotiate. rewrite Hex.
      fold tokens. rewrite (candidates_all_zero cfg tokens H). reflexivity.
  - intros a q. rewrite candidates_iff.
    assert (rejected_by_name tokens a = false <->
            ~ exists q0, In (token_of a, q0) tokens /\ (q0 == 0)%Q) as Hrej.
    { rewrite <- rejected_by_name_iff. destruct (rejected_by_name tokens a); split.
      - discriminate.
      - intros H. exfalso. now apply H.
      - intros _ H. discriminate H.
      - reflexivity. }
    assert (In (token_of a, q) tokens \/ In ("*"%string, q) tokens ->
            (~ (q == 0)%Q <-> (0 < q)%Q)) as Hpos.
    { intros Hin.
      assert (0 <= q)%Q as H0.
      { destruct Hin as [Hin|Hin]; apply (header_tokens_range _ _ Hin). }
      split.
      - intros Hq. apply Qle_lteq in H0 as [H0|H0]; [exact H0|]. exfalso. apply Hq. now symmetry.
      - intros Hlt Hq. rewrite Hq in Hlt. now apply Qlt_irrefl in Hlt. }
    split.
    + intros (He & Hq & Hin). split; [exact He|]. split.
      * apply Hpos; [tauto|exact Hq].
      * destruct Hin as [Hin|[Hin Hr]]; [now left|right]. split; [exact Hin|]. now apply Hrej.
    + intros (He & Hq & Hin). split; [exact He|]. split.
      * apply Hpos; [tauto|exact Hq].
      * destruct Hin as [Hin|[Hin Hr]]; [now left|right]. split; [exact Hin|]. now apply Hrej.
Qed.

Lemma negotiation_selects_best_witness :
  excludes default_configuration (get "br;q=0.5, gzip;q=0.7, deflate;q=0.3") = false /\
  negotiate default_configuration (get "br;q=0.5, gzip;q=0.7, deflate;q=0.3") = Some Gzip /\
  negotiation_correct default_configuration (get "br;q=0.5, gzip;q=0.7, deflate;q=0.3") /\
  excludes excluding_configuration (get "gzip") = true /\
  negotiate excluding_configuration (get "gzip") = None.
Proof.
  split; [reflexivity|]. split; [vm_compute; reflexivity|]. split.
  - exact (proj1 (proj1 (proj2 (negotiation_selects_best default_configuration
                    (get "br;q=0.5, gzip;q=0.7, deflate;q=0.3"))) eq_refl)).
  - split; [reflexivity|].
    exact (proj1 (negotiation_selects_best excluding_configuration (get "gzip")) eq_refl).
Defined.

(** C5 as stated fails where the exclusion predicate holds for the request:
    gzip is a candidate and nothing is negotiated. *)
Lemma negotiation_excluded_request :
  candidates excluding_configuration (header_tokens (Accept_Encoding (get "gzip")))
    = [(Gzip, 1%Q)] /\
  negotiate excluding_configuration (get "gzip") = None /\
  ~ negotiation_correct excluding_configuration (get "gzip").
Proof.
  split; [vm_compute; reflexivity|]. split; [vm_compute; reflexivity|].
  unfold negotiation_correct. vm_compute. discriminate.
Qed.

(** The examples of the spec and of the tests. *)
Example header_tokens_weights :
  header_tokens (Some "br;q=0.5, gzip;q=0.7, deflate;q=0.3"%string) =
  [("br"%string, (5 # 10)%Q); ("gzip"%string, (7 # 10)%Q); ("deflate"%string, (3 # 10)%Q)].
Proof. vm_compute. reflexivity. Qed.

Example negotiate_weights :
  negotiate default_configuration (get "br;q=0.5, gzip;q=0.7, deflate;q=0.3") = Some Gzip.
Proof. vm_compute. reflexivity. Qed.

Example negotiate_priority :
  negotiate default_configuration (get "br, gzip, deflate, zstd") = Some Brotli.
Proof. vm_compute. reflexivity. Qed.

Example negotiate_unknown :
  negotiate default_configuration (get "doesnotexist") = None.
Proof. vm_compute. reflexivity. Qed.

(** ** Request decoding *)

Lemma split_on_nonempty (sep : Ascii.ascii) (s : string) : split_on sep s <> [].
Proof.
  destruct s as [|ch s]; cbn; [discriminate|].
  destruct (Ascii.eqb ch sep); [discriminate|].
  destruct (split_on sep s); discriminate.
Qed.

Lemma decode_stages_rejects (cfg : Configuration) (tokens : list string) :
  forall steps stages,
    (exists tok, In tok tokens /\ supported cfg tok = None) \/
    (steps < length tokens)%nat ->
    decode_stages cfg steps tokens stages = Rejected.
Proof.
  induction tokens as [|tok rest IH]; intros steps stages H.
  - destruct H as [(tok & [] & _)|H]; cbn in H; lia.
  - destruct steps as [|steps]; [reflexivity|]. cbn [decode_stages].
    destruct (supported cfg tok) as [a|] eqn:Hs; [|reflexivity].
    apply IH. destruct H as [(tok' & [<-|Hin] & Hn)|H].
    + congruence.
    + left. eauto.
    + right. cbn in H. lia.
Qed.

Lemma supported_None_iff (cfg : Configuration) (tok : string) :
  supported cfg tok = None <-> unknown_or_disabled cfg tok.
Proof.
  unfold supported, unknown_or_disabled. destruct (algorithm_of (trim tok)) as [a|].
  - destruct (enabled cfg a) eqn:He; split.
    + discriminate.
    + intros [H|(a' & [= <-] & H)]; congruence.
    + intros _. right. eauto.
    + reflexivity.
  - split; [now left|reflexivity].
Qed.

(** When every token names an enabled algorithm and the budget covers them
    all, there is one stage per token, in the order of the header. *)
Lemma decode_stages_accepts (cfg : Configuration) (tokens : list string) :
  forall steps stages,
    (forall tok, In tok tokens -> ~ unknown_or_disabled cfg tok) ->
    (length tokens <= steps)%nat ->
    exists more,
      decode_stages cfg steps tokens stages = Decoded (stages ++ more) /\
      map token_of more = map trim tokens /\
      Forall (fun a => enabled cfg a = true) more.
Proof.
  induction tokens as [|tok rest IH]; intros steps stages Hall Hlen.
  - exists []. destruct steps; cbn; rewrite app_nil_r; auto.
  - destruct steps as [|steps]; [cbn in Hlen; lia|]. cbn [decode_stages].
    destruct (supported cfg tok) as [a|] eqn:Hs.
    + destruct (IH steps (stages ++ [a])) as (more & Hd & Hm & He).
      { intros t Ht. apply Hall. now right. }
      { cbn in Hlen. lia. }
      exists (a :: more). rewrite Hd, <- app_assoc. split; [reflexivity|].
      unfold supported in Hs. destruct (algorithm_of (trim tok)) as [a'|] eqn:Ha; [|discriminate].
      destruct (enabled cfg a') eqn:Hen; [|discriminate]. injection Hs as ->.
      split.
      * cbn [map]. rewrite Hm. f_equal. symmetry. now apply algorithm_of_token.
      * now constructor.
    + exfalso. apply (Hall tok); [now left|]. now apply supported_None_iff.
Qed.

(** C6, as the spec-modelled pipeline has it.  With request decompression
    switched off, or without a Content-Encoding header, the reader is
    returned unchanged and the application runs.  With it switched on, a
    header with an unknown or disabled token, or with more tokens than
    maxDecodeSteps, is rejected and the handler answers with status 415
    without running the application; any other header gives one decoder
    stage per token, each an enabled algorithm, in the order of the header. *)
Theorem unsupported_encoding_rejected (cfg : Configuration) (req : request) :
  (decompressEnabled cfg = false ->
   decompress cfg req = Unchanged /\ receive_request cfg req = Application []) /\
  (Content_Encoding req = None ->
   decompress cfg req = Unchanged /\ receive_request cfg req = Application []) /\
  (decompressEnabled cfg = true ->
   decoding_rejects cfg req /\
   forall h,
     Content_Encoding req = Some h ->
     (forall tok, In tok (split_on "," h) -> ~ unknown_or_disabled cfg tok) ->
     len (split_on "," h) <= maxDecodeSteps cfg ->
     exists stages,
       decompress cfg req = Decoded stages /\
       receive_request cfg req = Application stages /\
       map token_of stages = map trim (split_on "," h) /\
       Forall (fun a => enabled cfg a = true) stages).
Proof.
  split; [|split].
  - intros Hoff. unfold receive_request, decompress. now rewrite Hoff.
  - intros Hnone. unfold receive_request, decompress. rewrite Hnone.
    now destruct (decompressEnabled cfg).
  - intros Hen. split.
    + intros h Hh Hbad.
      assert (decompress cfg req = Rejected) as Hd.
      { unfold decompress. rewrite Hen, Hh. cbn [negb].
        apply decode_stages_rejects. destruct Hbad as [(tok & Hin & Hbad)|Hbad].
        - left. exists tok. split; [exact Hin|]. now apply supported_None_iff.
        - right. pose proof (split_on_nonempty "," h) as Hne.
          unfold len in Hbad. destruct (split_on "," h) as [|t ts]; [congruence|].
          cbn [length] in *. lia. }
      split; [exact Hd|]. unfold receive_request. now rewrite Hd.
    + intros h Hh Hall Hlen.
      destruct (decode_stages_accepts cfg (split_on "," h)
                  (Z.to_nat (maxDecodeSteps cfg)) [] Hall) as (stages & Hd & Hm & He).
      { unfold len in Hlen. lia. }
      exists stages. cbn [app] in Hd.
      assert (decompress cfg req = Decoded stages) as Hd'
        by (unfold decompress; rewrite Hen, Hh; exact Hd).
      split; [exact Hd'|]. split; [unfold receive_request; now rewrite Hd'|]. auto.
Qed.

Lemma unsupported_encoding_rejected_witness :
  decompressEnabled default_configuration = true /\
  Content_Encoding (post "gzip, gzip") = Some "gzip, gzip"%string /\
  maxDecodeSteps default_configuration < len (split_on "," "gzip, gzip") /\
  decompress default_configuration (post "gzip, gzip") = Rejected /\
  receive_request default_configuration (post "gzip, gzip") = Aborted 415 /\
  decompressEnabled no_decompress_configuration = false /\
  decompress no_decompress_configuration (post "gzip, gzip") = Unchanged /\
  receive_request no_decompress_configuration (post "gzip, gzip") = Application [].
Proof.
  assert (maxDecodeSteps default_configuration < len (split_on "," "gzip, gzip")) as Hm
    by (vm_compute; reflexivity).
  split; [reflexivity|]. split; [reflexivity|]. split; [exact Hm|].
  destruct (proj1 (proj2 (proj2 (unsupported_encoding_rejected default_configuration
                                   (post "gzip, gzip"))) eq_refl)
              "gzip, gzip"%string eq_refl (or_intror Hm)) as [Hd Hr].
  split; [exact Hd|]. split; [exact Hr|]. split; [reflexivity|].
  exact (proj1 (unsupported_encoding_rejected no_decompress_configuration
                  (post "gzip, gzip")) eq_refl).
Defined.

(** C6 as stated fails where request decompression is switched off: the
    header names an unknown algorithm and the body goes to the application
    as it came. *)
Lemma decoding_switched_off :
  decompress no_decompress_configuration (post "doesnotexist") = Unchanged /\
  receive_request no_decompress_configuration (post "doesnotexist") = Application [] /\
  ~ decoding_rejects no_decompress_configuration (post "doesnotexist").
Proof.
  split; [reflexivity|]. split; [reflexivity|].
  intros H. destruct (H "doesnotexist"%string eq_refl) as [Hd _]; [|discriminate Hd].
  left. exists "doesnotexist"%string. split; [now left|left; reflexivity].
Qed.

(** The examples of the spec: one stage for a supported token, rejection
    beyond the budget. *)
Example decode_one_stage :
  decompress default_configuration (post "gzip") = Decoded [Gzip].
Proof. reflexivity. Qed.

Example decode_over_budget :
  decompress default_configuration (post "gzip, gzip") = Rejected.
Proof. reflexivity. Qed.

(** ** The tests of the repository, run on the model *)

(** TestCompressNoopSmall, TestMetricsHandlerWithoutCompression *)
Example small_body_passes :
  let rw := snd (serve smallBody "gzip") in
  fst (serve smallBody "gzip") = None /\
  Header_Get "Content-Encoding" (Header_of rw) = ""%string /\
  Header_Get "Vary" (Header_of rw) = ""%string /\
  sk_body (sink_of rw) = bytes_of smallBody /\
  reported rw = [ {| OriginalSize := 10; CompressedSize := 10;
                     CompressionApplied := false; EncodingUsed := "" |} ].
Proof. vm_compute. repeat split. Qed.

(** TestCompressGzip, TestMetricsHandlerWithCompression, with the stand-in
    codec *)
Example large_body_compressed :
  let rw := snd (serve largeBody "gzip") in
  fst (serve largeBody "gzip") = None /\
  Header_Get "Content-Encoding" (Header_of rw) = "gzip"%string /\
  Header_Get "Vary" (Header_of rw) = "Accept-Encoding"%string /\
  dec stuffing (sk_body (sink_of rw)) = Some (bytes_of largeBody) /\
  reported rw = [ {| OriginalSize := 2560; CompressedSize := 5122;
                     CompressionApplied := true; EncodingUsed := "gzip" |} ].
Proof. vm_compute. repeat split. Qed.

(** ** What holds of the tracking writer through every call of the writer *)

Section Preserved.

Variable A : algorithm.
Variable P : trackingResponseWriter -> Prop.
Hypothesis P_Write : forall tw b, P tw -> P (snd (tracking_Write tw b)).
Hypothesis P_Set :
  forall tw k v, k = "Content-Encoding"%string \/ k = "Vary"%string ->
                 P tw -> P (tracking_map_header (Header_Set k v) tw).
Hypothesis P_Del :
  forall tw, P tw -> P (tracking_map_header (Header_Del "Content-Length") tw).
Hypothesis P_WriteHeader : forall tw code, P tw -> P (tracking_WriteHeader code tw).

Implicit Types (rw : respWriter A) (b : list byte) (tw : trackingResponseWriter).

Lemma kept_compressor_Write (c : enc A) tw b :
  P tw -> P (snd (compressor_Write A c tw b)).
Proof.
  intros H. unfold compressor_Write.
  destruct (enc_write A c b) as [c' [|x out]]; [exact H|].
  pose proof (P_Write tw (x :: out) H) as Ht.
  destruct (tracking_Write tw (x :: out)) as [[m err] tw']. destruct err; exact Ht.
Qed.

Lemma kept_compressor_Close (c : enc A) tw :
  P tw -> P (snd (compressor_Close A c tw)).
Proof.
  intros H. unfold compressor_Close. destruct (enc_close A c) as [|x out]; [exact H|].
  pose proof (P_Write tw (x :: out) H) as Ht.
  destruct (tracking_Write tw (x :: out)) as [[m err] tw']. exact Ht.
Qed.

Lemma kept_copy_to_compressor (c : enc A) tw data :
  P tw -> P (snd (copy_to_compressor A c tw data)).
Proof.
  intros H. unfold copy_to_compressor. destruct data as [|x data]; [exact H|].
  pose proof (kept_compressor_Write c tw (x :: data) H) as Hc.
  destruct (compressor_Write A c tw (x :: data)) as [[[m err] c'] tw'].
  destruct err; [exact Hc|]. destruct (m =? len (x :: data)); exact Hc.
Qed.

Lemma kept_copy_to_sink tw data : P tw -> P (snd (copy_to_sink tw data)).
Proof.
  intros H. unfold copy_to_sink. destruct data as [|x data]; [exact H|].
  pose proof (P_Write tw (x :: data) H) as Ht.
  destruct (tracking_Write tw (x :: data)) as [[m err] tw'].
  destruct err; [exact Ht|]. destruct (m =? len (x :: data)); exact Ht.
Qed.

Lemma kept_swap_if_due rw b :
  P (trackingWriter rw) -> P (trackingWriter (snd (swap_if_due A rw b))).
Proof.
  intros H. unfold swap_if_due. destruct (buf rw) as [data|]; [|exact H].
  destruct (threshold rw <=? int_add (len data) (len b)); [|exact H].
  match goal with |- context [copy_to_compressor A ?c ?tw data] =>
    pose proof (kept_copy_to_compressor c tw data) as Hc;
    destruct (copy_to_compressor A c tw data) as [[[[copied err] rest] c'] tw']
  end.
  cbn [snd] in Hc.
  assert (P tw') as Hs.
  { apply Hc. cbn. apply P_Set; [now right|]. apply P_Set; [now left|exact H]. }
  destruct err; exact Hs.
Qed.

Lemma kept_dest_Write rw b :
  P (trackingWriter rw) -> P (trackingWriter (snd (dest_Write A rw b))).
Proof.
  intros H. unfold dest_Write. destruct (buf rw) as [data|]; [exact H|].
  destruct (compressor rw) as [c|]; [|exact H].
  pose proof (kept_compressor_Write c (trackingWriter rw) b H) as Hc.
  destruct (compressor_Write A c (trackingWriter rw) b) as [[[n err] c'] tw]. exact Hc.
Qed.

Lemma kept_Write rw b :
  P (trackingWriter rw) -> P (trackingWriter (snd (Write A rw b))).
Proof.
  intros H. unfold Write.
  pose proof (kept_swap_if_due (map_header A (Header_Del "Content-Length") rw) b
                (P_Del _ H)) as Hs.
  destruct (swap_if_due A _ b) as [[[copied e]|] rw1]; cbn [snd] in Hs; [exact Hs|].
  pose proof (kept_dest_Write rw1 b Hs) as Hd.
  destruct (dest_Write A rw1 b) as [[n err] rw2]. destruct err; exact Hd.
Qed.

Lemma kept_WriteHeader rw code :
  P (trackingWriter rw) -> P (trackingWriter (WriteHeader A rw code)).
Proof. intros H. unfold WriteHeader. cbn. apply P_WriteHeader, P_Del, H. Qed.

Lemma kept_Close rw : P (trackingWriter rw) -> P (trackingWriter (snd (Close A rw))).
Proof.
  intros H. unfold Close.
  assert (P (trackingWriter (snd (Close_body A rw)))) as Hb.
  { unfold Close_body. destruct (buf rw) as [data|].
    - pose proof (kept_copy_to_sink (trackingWriter rw) data H) as Hc.
      destruct (copy_to_sink (trackingWriter rw) data) as [[[n err] rest] tw]. exact Hc.
    - destruct (compressor rw) as [c|]; [|exact H].
      pose proof (kept_compressor_Close c (trackingWriter rw) H) as Hc.
      destruct (compressor_Close A c (trackingWriter rw)) as [err tw]. exact Hc. }
  destruct (Close_body A rw) as [err rw1]. cbn [snd] in *.
  destruct (Close_deferred_fields A rw1) as (-> & _). exact Hb.
Qed.

End Preserved.

(** ** The byte count of the tracking writer *)

Lemma tallied_Write (b0 : list byte) (tw : trackingResponseWriter) (b : list byte) :
  tallied b0 tw -> tallied b0 (snd (tracking_Write tw b)).
Proof.
  intros (extra & Hb & Hn). unfold tracking_Write, sink_Write.
  destruct (sk_fault (tw_ResponseWriter tw) (sk_calls (tw_ResponseWriter tw))) as [[k e]|].
  - exists (extra ++ take k b). cbn. rewrite Hb, Hn. split; [now rewrite app_assoc|].
    unfold int_add. now rewrite wrap_wrap_add, len_app.
  - exists (extra ++ b). cbn. rewrite Hb, Hn. split; [now rewrite app_assoc|].
    unfold int_add. now rewrite wrap_wrap_add, len_app.
Qed.

Lemma tallied_step (A : algorithm) (b0 : list byte) (rw : respWriter A) (o : op) :
  tallied b0 (trackingWriter rw) -> tallied b0 (trackingWriter (snd (step rw o))).
Proof.
  intros H.
  assert (forall b, tallied b0 (trackingWriter (snd (Write A rw b)))) as Hw.
  { intros b. apply kept_Write; auto using tallied_Write. }
  destruct o; cbn [step].
  - specialize (Hw b). destruct (Write A rw b) as [[n err] rw']. exact Hw.
  - unfold WriteString. specialize (Hw (String.list_byte_of_string s)).
    destruct (Write A rw _) as [[n err] rw']. exact Hw.
  - cbn [snd]. apply kept_WriteHeader; auto using tallied_Write.
  - exact H.
  - exact H.
Qed.

Lemma tallied_run (A : algorithm) (b0 : list byte) (ops : list op) (rw : respWriter A) :
  tallied b0 (trackingWriter rw) -> tallied b0 (trackingWriter (run ops rw)).
Proof.
  revert rw. induction ops as [|o ops IH]; intros rw H; [exact H|].
  cbn [run fold_left]. apply IH. now apply tallied_step.
Qed.

Lemma tallied_new (A : algorithm) (c : sink) (swapSize : Z) (encoding : string) :
  tallied (sk_body c) (trackingWriter (newResponseWriter A c swapSize encoding)).
Proof. exists []. cbn. now rewrite app_nil_r. Qed.

(** X1. At every point of a response and after [Close], whatever the
    transport does, the sink holds what it held at the start followed by
    exactly as many bytes as the tracking writer has counted (as an [int]):
    bytes of a short write that failed are counted too, and nothing already
    sent is changed. *)
Theorem tracker_counts_what_the_sink_took (A : algorithm) (c : sink) (swapSize : Z)
    (encoding : string) (ops : list op) :
  let rw := run ops (newResponseWriter A c swapSize encoding) in
  (exists extra,
      sk_body (sink_of rw) = sk_body c ++ extra /\
      tw_bytesWritten (trackingWriter rw) = wrap (len extra)) /\
  (exists extra,
      sk_body (sink_of (snd (Close A rw))) = sk_body c ++ extra /\
      tw_bytesWritten (trackingWriter (snd (Close A rw))) = wrap (len extra)).
Proof.
  intros rw.
  assert (tallied (sk_body c) (trackingWriter rw)) as H by apply tallied_run, tallied_new.
  split; [exact H|].
  change (tallied (sk_body c) (trackingWriter (snd (Close A rw)))).
  apply kept_Close; auto using tallied_Write.
Qed.

Lemma Close_encoding (A : algorithm) (rw : respWriter A) :
  encoding (snd (Close A rw)) = encoding rw.
Proof.
  unfold Close, Close_body. destruct (buf rw) as [data|].
  - destruct (copy_to_sink (trackingWriter rw) data) as [[[n err] rest] tw].
    unfold Close_deferred. cbn [snd]. now destruct (GetCompressionApplied _).
  - destruct (compressor rw) as [c|].
    + destruct (compressor_Close A c (trackingWriter rw)) as [err tw].
      unfold Close_deferred. cbn [snd]. now destruct (GetCompressionApplied _).
    + unfold Close_deferred. cbn [snd]. now destruct (GetCompressionApplied _).
Qed.

Lemma Close_deferred_count (A : algorithm) (rw : respWriter A) :
  Swapped rw = true ->
  compressedBytesCount (Close_deferred A rw) = tw_bytesWritten (trackingWriter rw).
Proof. intros H. unfold Close_deferred, GetCompressionApplied. now rewrite H. Qed.

Lemma Close_count (A : algorithm) (rw : respWriter A) :
  Swapped rw = true ->
  compressedBytesCount (snd (Close A rw)) = tw_bytesWritten (trackingWriter (snd (Close A rw))).
Proof.
  intros H. pose proof (Close_Swapped A rw) as Hs. rewrite H in Hs.
  unfold Close in *. destruct (Close_body A rw) as [err rw1]. cbn [snd] in *.
  assert (Swapped rw1 = true) as H1.
  { unfold Swapped in Hs |- *.
    destruct (Close_deferred_fields A rw1) as (_ & _ & Hbuf). now rewrite Hbuf in Hs. }
  rewrite Close_deferred_count by exact H1.
  now destruct (Close_deferred_fields A rw1) as (-> & _).
Qed.

(** X2. When a response is closed swapped, whatever the transport did, the
    handler is told once: compression applied, the encoding the writer was
    made with, and as compressed size the number of bytes that reached the
    sink during the response (as an [int]); [compressedBytesCount] holds the
    same number. *)
Theorem compressed_size_is_bytes_sent (A : algorithm) (c : sink) (swapSize : Z)
    (encoding : string) (ops : list op) :
  let rw' := snd (Close A (run ops (newResponseWriter A c swapSize encoding))) in
  Swapped rw' = true ->
  exists extra,
    sk_body (sink_of rw') = sk_body c ++ extra /\
    reported rw' =
      [ {| OriginalSize := bytesWritten rw'; CompressedSize := wrap (len extra);
           CompressionApplied := true; EncodingUsed := encoding |} ] /\
    compressedBytesCount rw' = wrap (len extra).
Proof.
  intros rw' Hs.
  set (rw := run ops (newResponseWriter A c swapSize encoding)) in *.
  assert (tallied (sk_body c) (trackingWriter rw')) as (extra & Hb & Hn).
  { apply kept_Close; auto using tallied_Write. apply tallied_run, tallied_new. }
  exists extra. split; [exact Hb|].
  assert (Swapped rw = true) as Hs0 by (rewrite <- (Close_Swapped A rw); exact Hs).
  split.
  - unfold rw'. rewrite Close_reported. fold rw'.
    destruct (run_fields A ops (newResponseWriter A c swapSize encoding)) as (Hrep & _ & Henc).
    fold rw in Hrep, Henc. rewrite Hrep. cbn [reported newResponseWriter app].
    f_equal. unfold GetMetricsData, GetCompressedSize, GetEncoding, GetOriginalSize,
      GetCompressionApplied. rewrite Hs, Hn.
    unfold rw'. rewrite Close_encoding, Henc. reflexivity.
  - unfold rw'. rewrite Close_count by exact Hs0. exact Hn.
Qed.

Lemma compressed_size_is_bytes_sent_witness :
  let rw' := snd (Close stuffing (run large_response
                    (newResponseWriter stuffing (fresh_sink (breaks_at 1 5)) 4 "gzip"))) in
  Swapped rw' = true /\
  exists extra,
    sk_body (sink_of rw') = sk_body (fresh_sink (breaks_at 1 5)) ++ extra /\
    reported rw' =
      [ {| OriginalSize := bytesWritten rw'; CompressedSize := wrap (len extra);
           CompressionApplied := true; EncodingUsed := "gzip" |} ] /\
    compressedBytesCount rw' = wrap (len extra).
Proof.
  intros rw'.
  assert (Swapped rw' = true) as Hs by (vm_compute; reflexivity).
  split; [exact Hs|].
  exact (compressed_size_is_bytes_sent stuffing (fresh_sink (breaks_at 1 5)) 4 "gzip"
           large_response Hs).
Defined.

(** ** The tracking writer on its own *)

Lemma tracking_run_tallied (b0 : list byte) (ops : list tracking_op)
    (tw : trackingResponseWriter) :
  tallied b0 tw -> tallied b0 (tracking_run ops tw).
Proof.
  revert tw. induction ops as [|o ops IH]; intros tw H; [exact H|].
  cbn [tracking_run fold_left]. apply IH. destruct o; cbn [tracking_step].
  - now apply tallied_Write.
  - unfold tracking_WriteString. now apply tallied_Write.
Qed.

Lemma tracking_run_header (ops : list tracking_op) (tw : trackingResponseWriter) :
  sk_header (tw_ResponseWriter (tracking_run ops tw)) = sk_header (tw_ResponseWriter tw).
Proof.
  revert tw. induction ops as [|o ops IH]; intros tw; [reflexivity|].
  cbn [tracking_run fold_left]. fold (tracking_run ops (tracking_step tw o)). rewrite IH.
  destruct o; cbn [tracking_step]; unfold tracking_WriteString, tracking_Write.
  - pose proof (sink_Write_header (tw_ResponseWriter tw) b) as H.
    destruct (sink_Write (tw_ResponseWriter tw) b) as [[n err] s']. exact H.
  - pose proof (sink_Write_header (tw_ResponseWriter tw) (String.list_byte_of_string s)) as H.
    destruct (sink_Write (tw_ResponseWriter tw) _) as [[n err] s']. exact H.
Qed.

(** X3. A tracking writer used on its own: after any writes, failed ones
    included, [Close] returns nil and reports an uncompressed outcome whose
    two sizes are both the number of bytes the sink took since the writer
    was made (as an [int]); the writes never touch the header map. *)
Theorem tracking_writer_reports_sent_bytes (c : sink) (ops : list tracking_op) :
  let tw := tracking_run ops (newTrackingResponseWriter c) in
  sk_header (tw_ResponseWriter tw) = sk_header c /\
  exists extra,
    sk_body (tw_ResponseWriter tw) = sk_body c ++ extra /\
    tracking_Close tw =
      (None, {| OriginalSize := wrap (len extra); CompressedSize := wrap (len extra);
                CompressionApplied := false; EncodingUsed := "" |}).
Proof.
  intros tw. split; [apply tracking_run_header|].
  assert (tallied (sk_body c) tw) as (extra & Hb & Hn).
  { apply tracking_run_tallied. exists []. cbn. now rewrite app_nil_r. }
  exists extra. split; [exact Hb|]. unfold tracking_Close. now rewrite Hn.
Qed.

(** ** Header entries the writer leaves alone *)

Section HeaderFrame.

Variable A : algorithm.
Implicit Types (rw : respWriter A) (o : op).

Lemma same_entry_Write k (h0 : Header) (tw : trackingResponseWriter) (b : list byte) :
  same_entry k h0 tw -> same_entry k h0 (snd (tracking_Write tw b)).
Proof.
  unfold same_entry, tracking_Write. intros H.
  pose proof (sink_Write_header (tw_ResponseWriter tw) b) as Hh.
  destruct (sink_Write (tw_ResponseWriter tw) b) as [[n err] s']. cbn in *. now rewrite Hh.
Qed.

Lemma same_entry_Set k (h0 : Header) (tw : trackingResponseWriter) k' v :
  ~ writer_key k -> k' = "Content-Encoding"%string \/ k' = "Vary"%string ->
  same_entry k h0 tw -> same_entry k h0 (tracking_map_header (Header_Set k' v) tw).
Proof.
  unfold same_entry, writer_key, Header_Set. intros Hk Hk' H. cbn.
  rewrite lookup_insert_ne; [exact H|]. intros ->. tauto.
Qed.

Lemma same_entry_Del k (h0 : Header) (tw : trackingResponseWriter) :
  ~ writer_key k ->
  same_entry k h0 tw -> same_entry k h0 (tracking_map_header (Header_Del "Content-Length") tw).
Proof.
  unfold same_entry, writer_key, Header_Del. intros Hk H. cbn.
  rewrite lookup_delete_ne; [exact H|]. intros <-. tauto.
Qed.

Lemma step_frame rw o k :
  ~ writer_key k ->
  Header_of (snd (step rw o)) !! k = app_header_step o (Header_of rw) !! k.
Proof.
  intros Hk.
  assert (forall b, Header_of (snd (Write A rw b)) !! k = Header_of rw !! k) as Hw.
  { intros b. apply (kept_Write A (same_entry k (Header_of rw))).
    - apply same_entry_Write.
    - intros tw k' v. now apply same_entry_Set.
    - intros tw. now apply same_entry_Del.
    - reflexivity. }
  destruct o; cbn [step app_header_step].
  - specialize (Hw b). destruct (Write A rw b) as [[n err] rw']. exact Hw.
  - unfold WriteString. specialize (Hw (String.list_byte_of_string s)).
    destruct (Write A rw _) as [[n err] rw']. exact Hw.
  - cbn. unfold Header_Del. rewrite lookup_delete_ne; [reflexivity|].
    intros <-. apply Hk. now left.
  - reflexivity.
  - reflexivity.
Qed.

Lemma run_frame ops rw k :
  ~ writer_key k ->
  Header_of (run ops rw) !! k = app_header ops (Header_of rw) !! k.
Proof.
  intros Hk. revert rw. induction ops as [|o ops IH]; intros rw; [reflexivity|].
  cbn [run fold_left]. fold (run ops (snd (step rw o))). rewrite IH.
  change (app_header (o :: ops) (Header_of rw))
    with (app_header ops (app_header_step o (Header_of rw))).
  apply app_header_ext. now apply step_frame.
Qed.

Lemma Close_header rw : Header_of (snd (Close A rw)) = Header_of rw.
Proof.
  apply (kept_Close A (fun tw => sk_header (tw_ResponseWriter tw) = Header_of rw)).
  - intros tw b H. unfold tracking_Write.
    pose proof (sink_Write_header (tw_ResponseWriter tw) b) as Hh.
    destruct (sink_Write (tw_ResponseWriter tw) b) as [[n err] s']. cbn in *. now rewrite Hh.
  - reflexivity.
Qed.

End HeaderFrame.

(** X4. Of the header map the writer edits only Content-Length,
    Content-Encoding and Vary: every other entry is, at any point of a
    response, what the application's own header edits made it, whatever
    the transport and the codec do; and [Close] changes no entry at all. *)
Theorem other_headers_left_alone (A : algorithm) (rw : respWriter A) (ops : list op)
    (k : string) :
  ~ writer_key k ->
  Header_of (run ops rw) !! k = app_header ops (Header_of rw) !! k /\
  Header_of (snd (Close A (run ops rw))) = Header_of (run ops rw).
Proof.
  intros Hk. split; [now apply run_frame|apply Close_header].
Qed.

Lemma other_headers_left_alone_witness :
  let rw := newResponseWriter stuffing (fresh_sink refuses_all) 4 "gzip" in
  let ops := gin_String 200 largeBody in
  ~ writer_key "Content-Type" /\
  Header_of (run ops rw) !! "Content-Type"%string =
    app_header ops (Header_of rw) !! "Content-Type"%string /\
  Header_of (snd (Close stuffing (run ops rw))) = Header_of (run ops rw).
Proof.
  intros rw ops.
  assert (~ writer_key "Content-Type") as Hk
    by (unfold writer_key; intros [H|[H|H]]; discriminate H).
  split; [exact Hk|].
  exact (other_headers_left_alone stuffing rw ops "Content-Type" Hk).
Defined.

(** ** The count of original bytes *)

Section OriginalSize.

Variable A : algorithm.
Implicit Types (rw : respWriter A) (b : list byte) (o : op).

(** A write that returns a nil error has taken the whole slice. *)
Lemma Write_ok_full rw b n rw' : Write A rw b = ((n, None), rw') -> n = len b.
Proof.
  unfold Write. destruct (swap_if_due A _ b) as [[[copied e]|] rw1]; [discriminate|].
  unfold dest_Write. destruct (buf rw1) as [data|].
  - intros [= <- _]. reflexivity.
  - destruct (compressor rw1) as [c|]; [|discriminate].
    destruct (compressor_Write A c (trackingWriter rw1) b) as [[[k err] c'] tw] eqn:Hc.
    destruct err; [discriminate|]. intros [= <- _].
    now apply compressor_Write_ok in Hc as [-> _].
Qed.

Lemma Write_count rw b z :
  bytesWritten rw = wrap z ->
  bytesWritten (snd (Write A rw b)) =
  wrap (z + len (match snd (fst (Write A rw b)) with None => b | Some _ => [] end)).
Proof.
  intros Hz. destruct (Write A rw b) as [[n [e|]] rw'] eqn:Hw; cbn [fst snd].
  - rewrite (Write_error_count A rw b n e rw' Hw), Hz. f_equal. change (len (@nil byte)) with 0. lia.
  - rewrite (Write_success_count A rw b n rw' Hw), Hz, (Write_ok_full rw b n rw' Hw).
    unfold int_add. apply wrap_wrap_add.
Qed.

Lemma step_count rw o z :
  bytesWritten rw = wrap z ->
  bytesWritten (snd (step rw o)) =
  wrap (z + len (match fst (step rw o) with None => payload o | Some _ => [] end)).
Proof.
  intros Hz. destruct o; cbn [step payload].
  - pose proof (Write_count rw b z Hz) as H.
    destruct (Write A rw b) as [[n err] rw']. exact H.
  - unfold WriteString. pose proof (Write_count rw (String.list_byte_of_string s) z Hz) as H.
    destruct (Write A rw _) as [[n err] rw']. exact H.
  - cbn. rewrite Hz. f_equal. change (len (@nil byte)) with 0. lia.
  - cbn. rewrite Hz. f_equal. change (len (@nil byte)) with 0. lia.
  - cbn. rewrite Hz. f_equal. change (len (@nil byte)) with 0. lia.
Qed.

Lemma run_count ops rw z :
  bytesWritten rw = wrap z ->
  bytesWritten (run ops rw) = wrap (z + len (accepted ops rw)).
Proof.
  revert rw z. induction ops as [|o ops IH]; intros rw z Hz.
  - cbn. rewrite Hz. f_equal. change (len (@nil byte)) with 0. lia.
  - cbn [run fold_left accepted]. fold (run ops (snd (step rw o))).
    rewrite (IH _ _ (step_count rw o z Hz)).
    destruct (fst (step rw o)); f_equal; rewrite ?len_app; change (len (@nil byte)) with 0; lia.
Qed.

End OriginalSize.

(** X5. [Size()] is, as an [int], the number of bytes of the writes that
    returned a nil error: failed writes, status codes and header edits add
    nothing, whatever reached the sink.  [Written()] is accordingly true
    exactly when such a write had at least one byte (for a body that fits an
    [int]); a swap caused by an empty write leaves it false. *)
Theorem size_counts_accepted_bytes (A : algorithm) (c : sink) (swapSize : Z)
    (encoding : string) (ops : list op) :
  let new := newResponseWriter A c swapSize encoding in
  Size A (run ops new) = wrap (len (accepted ops new)) /\
  (len (accepted ops new) <= int_max ->
   Written A (run ops new) = match accepted ops new with [] => false | _ :: _ => true end).
Proof.
  intros new.
  assert (Size A (run ops new) = wrap (len (accepted ops new))) as Hs.
  { unfold Size. now rewrite (run_count A ops new 0 eq_refl). }
  split; [exact Hs|]. intros Hle. unfold Written. fold (Size A (run ops new)). rewrite Hs.
  pose proof (len_nonneg (accepted ops new)).
  rewrite wrap_small by (unfold is_int, int_min, int_max in *; lia).
  destruct (accepted ops new); [reflexivity|]. unfold len. cbn [length]. apply Z.ltb_lt. lia.
Qed.

Lemma size_counts_accepted_bytes_witness :
  let new := newResponseWriter stuffing (fresh_sink (breaks_at 1 5)) 4 "gzip" in
  let ops := [OpWrite (bytes_of "abcd"); OpWrite (bytes_of "efgh"); OpWriteHeader 200;
              OpWriteString "ij"] in
  accepted ops new = bytes_of "abcdij" /\
  len (accepted ops new) <= int_max /\
  Size stuffing (run ops new) = wrap (len (accepted ops new)) /\
  Written stuffing (run ops new) = match accepted ops new with [] => false | _ :: _ => true end.
Proof.
  intros new ops.
  assert (len (accepted ops new) <= int_max) as Hle by (vm_compute; discriminate).
  split; [vm_compute; reflexivity|]. split; [exact Hle|].
  destruct (size_counts_accepted_bytes stuffing (fresh_sink (breaks_at 1 5)) 4 "gzip" ops)
    as [Hs Hw].
  split; [exact Hs|exact (Hw Hle)].
Defined.

(** ** Closing a writer that still buffers *)

Section Flush.

Variable A : algorithm.
Implicit Types (rw : respWriter A) (data : list byte).

Lemma take_drop_taken (k : nat) data :
  take k data ++ drop (Z.to_nat (len (take k data))) data = data.
Proof.
  unfold len. rewrite Nat2Z.id, length_take.
  destruct (Nat.le_gt_cases k (length data)) as [Hle|Hgt].
  - rewrite Nat.min_l by exact Hle. apply take_drop.
  - rewrite Nat.min_r by lia. rewrite take_ge by lia. rewrite drop_ge by lia. apply app_nil_r.
Qed.

Lemma copy_to_sink_keeps (tw : trackingResponseWriter) data :
  let '((_, err), rest, tw') := copy_to_sink tw data in
  sk_body (tw_ResponseWriter tw') ++ rest = sk_body (tw_ResponseWriter tw) ++ data /\
  (err = None -> rest = []).
Proof.
  unfold copy_to_sink. destruct data as [|x data]; [split; reflexivity|].
  unfold tracking_Write, sink_Write.
  destruct (sk_fault (tw_ResponseWriter tw) (sk_calls (tw_ResponseWriter tw))) as [[k e]|].
  - cbn [fst snd tw_ResponseWriter sk_body]. split; [|discriminate].
    rewrite <- app_assoc. f_equal. apply take_drop_taken.
  - cbn [fst snd tw_ResponseWriter sk_body]. rewrite Z.eqb_refl. split; [|reflexivity].
    now rewrite app_nil_r.
Qed.

Lemma Close_flush rw data :
  buf rw = Some data ->
  exists rest,
    buf (snd (Close A rw)) = Some rest /\
    sk_body (sink_of (snd (Close A rw))) ++ rest = sk_body (sink_of rw) ++ data /\
    (fst (Close A rw) = None -> rest = []) /\
    bytesWritten (snd (Close A rw)) = bytesWritten rw.
Proof.
  intros Hb. unfold Close, Close_body. rewrite Hb.
  pose proof (copy_to_sink_keeps (trackingWriter rw) data) as Hk.
  destruct (copy_to_sink (trackingWriter rw) data) as [[[n err] rest] tw].
  cbn [fst snd]. unfold sink_of.
  destruct (Close_deferred_fields A (set_tracker A tw (set_buf A (Some rest) rw)))
    as (-> & -> & ->).
  exists rest. cbn. tauto.
Qed.

End Flush.

(** X6. Closing a writer that still buffers loses and repeats nothing,
    whatever the transport does: what the sink holds afterwards followed by
    what is left in the buffer is what the sink held before followed by the
    buffer; when [Close] returns nil the buffer is empty, and when the flush
    fails the buffer keeps exactly the bytes the sink did not take. *)
Theorem flush_keeps_every_byte (A : algorithm) (rw : respWriter A) (data : list byte) :
  buf rw = Some data ->
  exists rest,
    buf (snd (Close A rw)) = Some rest /\
    sk_body (sink_of (snd (Close A rw))) ++ rest = sk_body (sink_of rw) ++ data /\
    (fst (Close A rw) = None -> rest = []).
Proof.
  intros Hb. destruct (Close_flush A rw data Hb) as (rest & H1 & H2 & H3 & _). eauto.
Qed.

Lemma flush_keeps_every_byte_witness :
  let rw := run [OpWrite (bytes_of "abc")]
                (newResponseWriter stuffing (fresh_sink (breaks_at 0 2)) 4 "gzip") in
  buf rw = Some (bytes_of "abc") /\
  sk_body (sink_of (snd (Close stuffing rw))) = bytes_of "ab" /\
  exists rest,
    buf (snd (Close stuffing rw)) = Some rest /\
    sk_body (sink_of (snd (Close stuffing rw))) ++ rest = sk_body (sink_of rw) ++ bytes_of "abc" /\
    (fst (Close stuffing rw) = None -> rest = []).
Proof.
  intros rw.
  assert (buf rw = Some (bytes_of "abc")) as Hb by (vm_compute; reflexivity).
  split; [exact Hb|]. split; [vm_compute; reflexivity|].
  exact (flush_keeps_every_byte stuffing rw (bytes_of "abc") Hb).
Defined.

(** X7. [Close] has no guard against a second call.  On a writer that still
    buffered and whose first [Close] returned nil, a second [Close] returns
    nil and sends nothing (the buffer was reset), but it calls the metrics
    handler again, with the same data. *)
Theorem second_close_reports_again (A : algorithm) (rw : respWriter A) (data : list byte) :
  buf rw = Some data ->
  fst (Close A rw) = None ->
  let rw1 := snd (Close A rw) in
  let rw2 := snd (Close A rw1) in
  fst (Close A rw1) = None /\
  trackingWriter rw2 = trackingWriter rw1 /\
  reported rw2 = reported rw ++ [GetMetricsData rw1; GetMetricsData rw1].
Proof.
  intros Hb Hok. cbv zeta.
  destruct (Close_flush A rw data Hb) as (rest & Hb1 & _ & Hrest & Hn).
  rewrite (Hrest Hok) in Hb1.
  pose proof (Close_reported A rw) as R1.
  pose proof (Close_buffering_metrics A rw data Hb) as M1.
  remember (snd (Close A rw)) as rw1 eqn:E1.
  assert (Close_body A rw1 = (None, set_tracker A (trackingWriter rw1) (set_buf A (Some []) rw1)))
    as Hbody by (unfold Close_body; now rewrite Hb1).
  assert (fst (Close A rw1) = None) as Hok1 by (unfold Close; now rewrite Hbody).
  split; [exact Hok1|]. split.
  - unfold Close. rewrite Hbody. cbn [snd].
    now destruct (Close_deferred_fields A (set_tracker A (trackingWriter rw1)
                                             (set_buf A (Some []) rw1))) as (-> & _).
  - rewrite (Close_reported A rw1), (Close_buffering_metrics A rw1 [] Hb1), R1, M1, Hn.
    now rewrite <- app_assoc.
Qed.

Lemma second_close_reports_again_witness :
  let rw := run small_response
                (newResponseWriter stuffing (fresh_sink never_fails) 512 "gzip") in
  let rw1 := snd (Close stuffing rw) in
  let rw2 := snd (Close stuffing rw1) in
  buf rw = Some (bytes_of "SMALL BODY") /\
  fst (Close stuffing rw) = None /\
  fst (Close stuffing rw1) = None /\
  trackingWriter rw2 = trackingWriter rw1 /\
  reported rw2 = reported rw ++ [GetMetricsData rw1; GetMetricsData rw1].
Proof.
  intros rw rw1 rw2.
  assert (buf rw = Some (bytes_of "SMALL BODY")) as Hb by (vm_compute; reflexivity).
  assert (fst (Close stuffing rw) = None) as Hok by (vm_compute; reflexivity).
  split; [exact Hb|]. split; [exact Hok|].
  exact (second_close_reports_again stuffing rw (bytes_of "SMALL BODY") Hb Hok).
Defined.

(** ** When the writer swaps *)

Section SwapPoint.

Variable A : algorithm.
Implicit Types (rw : respWriter A) (b w pre : list byte) (o : op).

Lemma phase_unswapped rw wrote w pre :
  phase rw wrote w pre -> Swapped rw = false -> buffering rw w pre.
Proof.
  intros [[Hb _]|(chunks & (Hb & _) & _)] Hs; [exact Hb|].
  unfold Swapped in Hs. now rewrite Hb in Hs.
Qed.

Lemma step_flips rw o :
  Swapped rw = false -> Swapped (snd (step rw o)) = true ->
  is_write o = true /\
  exists data, buf rw = Some data /\ threshold rw <= int_add (len data) (len (payload o)).
Proof.
  intros H0 H1.
  destruct o; cbn [step snd] in H1;
    try (change (Swapped rw = true) in H1; congruence).
  - split; [reflexivity|]. apply Write_flips; [exact H0|]. cbn [payload].
    destruct (Write A rw b) as [[n err] rw']. exact H1.
  - split; [reflexivity|]. apply Write_flips; [exact H0|]. cbn [payload].
    unfold WriteString in H1. destruct (Write A rw _) as [[n err] rw']. exact H1.
Qed.

(** In a response without errors a swapped writer has seen a write and a
    body that reached the threshold. *)
Lemma run_swap_point ops rw wrote w pre :
  phase rw wrote w pre ->
  (Swapped rw = true -> wrote = true /\ threshold rw <= len w) ->
  faults ops rw = [] ->
  len (w ++ written ops) <= int_max ->
  Swapped (run ops rw) = true ->
  (wrote || existsb is_write ops) = true /\ threshold rw <= len (w ++ written ops).
Proof.
  revert rw wrote w. induction ops as [|o ops IH]; intros rw wrote w Hp Hinv Hf Hle Hs.
  - cbn in *. rewrite orb_false_r, app_nil_r. now apply Hinv.
  - apply faults_cons_nil in Hf as [He Hf].
    rewrite written_cons, app_assoc in Hle |- *.
    destruct (step_fields A rw o) as (_ & Ht & _).
    cbn [existsb]. rewrite orb_assoc, <- Ht.
    apply IH; try assumption.
    + now apply step_phase.
    + intros Hs1. rewrite Ht.
      pose proof (len_nonneg w). pose proof (len_nonneg (payload o)).
      pose proof (len_nonneg (written ops)). rewrite !len_app in *.
      destruct (Swapped rw) eqn:Hs0.
      * destruct (Hinv eq_refl) as [-> Hth]. split; [reflexivity|lia].
      * destruct (step_flips rw o Hs0 Hs1) as (Hw & data & Hd & Hth).
        rewrite Hw, orb_true_r. split; [reflexivity|].
        destruct (phase_unswapped rw wrote w pre Hp Hs0) as (Hb & _).
        rewrite Hb in Hd. injection Hd as <-.
        unfold int_add in Hth. rewrite wrap_small in Hth; [exact Hth|].
        unfold is_int, int_min, int_max in *. lia.
Qed.

(** While a response without errors is unswapped, the sink has been left
    alone: only its header map and status may have changed. *)
Lemma Write_below_sink rw acc pre b :
  buffering rw acc pre ->
  int_add (len acc) (len b) < threshold rw ->
  sk_calls (sink_of (snd (Write A rw b))) = sk_calls (sink_of rw) /\
  sk_wire (sink_of (snd (Write A rw b))) = sk_wire (sink_of rw).
Proof.
  intros (Hb & _) Hlt.
  unfold Write, swap_if_due. rewrite buf_map_header, Hb. cbn [threshold map_header set_tracker].
  destruct (Z.leb_spec (threshold rw) (int_add (len acc) (len b))) as [Hle|_]; [lia|].
  unfold dest_Write. rewrite buf_map_header, Hb. split; reflexivity.
Qed.

Lemma step_quiet rw wrote w pre o :
  phase rw wrote w pre ->
  Swapped rw = false ->
  fst (step rw o) = None ->
  Swapped (snd (step rw o)) = false ->
  sk_calls (sink_of (snd (step rw o))) = sk_calls (sink_of rw) /\
  sk_wire (sink_of (snd (step rw o))) = sk_wire (sink_of rw).
Proof.
  intros Hp Hs0 He Hs1.
  pose proof (phase_unswapped rw wrote w pre Hp Hs0) as Hb.
  assert (forall b, snd (fst (Write A rw b)) = None -> Swapped (snd (Write A rw b)) = false ->
                    sk_calls (sink_of (snd (Write A rw b))) = sk_calls (sink_of rw) /\
                    sk_wire (sink_of (snd (Write A rw b))) = sk_wire (sink_of rw)) as Hw.
  { intros b Hok Hun.
    destruct (Z.lt_ge_cases (int_add (len w) (len b)) (threshold rw)) as [Hlt|Hge].
    - now apply Write_below_sink with w pre.
    - exfalso. destruct (Write A rw b) as [[n err] rw'] eqn:Hwr. cbn [fst snd] in *. subst err.
      destruct (Write_due A rw w pre b n rw' Hb Hge Hwr) as [Hnil _].
      unfold Swapped in Hun. now rewrite Hnil in Hun. }
  destruct o; cbn [step] in *; try (split; reflexivity).
  - specialize (Hw b). destruct (Write A rw b) as [[n err] rw']. now apply Hw.
  - unfold WriteString in *. specialize (Hw (String.list_byte_of_string s)).
    destruct (Write A rw _) as [[n err] rw']. now apply Hw.
Qed.

Lemma run_quiet ops rw wrote w pre :
  phase rw wrote w pre ->
  faults ops rw = [] ->
  Swapped (run ops rw) = false ->
  sk_calls (sink_of (run ops rw)) = sk_calls (sink_of rw) /\
  sk_wire (sink_of (run ops rw)) = sk_wire (sink_of rw).
Proof.
  revert rw wrote w. induction ops as [|o ops IH]; intros rw wrote w Hp Hf Hs.
  - split; reflexivity.
  - apply faults_cons_nil in Hf as [He Hf]. cbn [run fold_left] in *.
    fold (run ops (snd (step rw o))) in *.
    assert (Swapped (snd (step rw o)) = false) as Hs1.
    { destruct (Swapped (snd (step rw o))) eqn:E; [|reflexivity].
      now rewrite (run_keeps_swapped A ops _ E) in Hs. }
    assert (Swapped rw = false) as Hs0.
    { destruct (Swapped rw) eqn:E; [|reflexivity].
      now rewrite (step_keeps_swapped A rw o E) in Hs1. }
    destruct (step_quiet rw wrote w pre o Hp Hs0 He Hs1) as [Hc Hw].
    destruct (IH _ _ _ (step_phase A rw wrote w pre o Hp He) Hf Hs) as [Hc' Hw'].
    split; congruence.
Qed.

End SwapPoint.

(** X8. In a response without a returned error whose body fits an [int],
    the writer ends swapped exactly when the application wrote through it at
    least once and the body has at least [threshold] bytes: a body of exactly
    [threshold] bytes is compressed, a response with no write never is
    (whatever the threshold), and with a threshold of zero or less an empty
    write is enough. *)
Theorem swapped_exactly_at_threshold (A : algorithm) (c : sink) (swapSize : Z)
    (encoding : string) (ops : list op) :
  faults ops (newResponseWriter A c swapSize encoding) = [] ->
  len (written ops) <= int_max ->
  Swapped (run ops (newResponseWriter A c swapSize encoding)) =
  existsb is_write ops && (swapSize <=? len (written ops)).
Proof.
  intros Hf Hle.
  set (new := newResponseWriter A c swapSize encoding) in *.
  pose proof (run_phase A ops new false [] (sk_body c) (phase_new A c swapSize encoding) Hf) as Hp.
  cbn [app orb] in Hp.
  destruct (run_fields A ops new) as (_ & Ht & _). cbn [threshold new newResponseWriter] in Ht.
  destruct (Swapped (run ops new)) eqn:Hs.
  - destruct (run_swap_point A ops new false [] (sk_body c)
                (phase_new A c swapSize encoding)) as [Hw Hth]; try assumption.
    { discriminate. }
    cbn [app orb threshold new newResponseWriter] in Hw, Hth.
    rewrite Hw. symmetry. apply Z.leb_le. exact Hth.
  - destruct Hp as [[_ Hlt]|(chunks & (Hb & _) & _)].
    + destruct (existsb is_write ops); [|reflexivity]. specialize (Hlt eq_refl).
      rewrite Ht in Hlt. pose proof (len_nonneg (written ops)).
      rewrite wrap_small in Hlt by (unfold is_int, int_min, int_max in *; lia).
      symmetry. apply Z.leb_gt. exact Hlt.
    + unfold Swapped in Hs. now rewrite Hb in Hs.
Qed.

Lemma swapped_exactly_at_threshold_witness :
  let ops := [OpWriteHeader 200; OpWrite (bytes_of "ab"); OpWrite (bytes_of "cd")] in
  faults ops (newResponseWriter stuffing (fresh_sink never_fails) 4 "gzip") = [] /\
  len (written ops) <= int_max /\
  len (written ops) = 4 /\
  Swapped (run ops (newResponseWriter stuffing (fresh_sink never_fails) 4 "gzip")) =
  existsb is_write ops && (4 <=? len (written ops)).
Proof.
  intros ops.
  assert (faults ops (newResponseWriter stuffing (fresh_sink never_fails) 4 "gzip") = []) as Hf
    by (vm_compute; reflexivity).
  assert (len (written ops) <= int_max) as Hle by (vm_compute; discriminate).
  split; [exact Hf|]. split; [exact Hle|]. split; [vm_compute; reflexivity|].
  exact (swapped_exactly_at_threshold stuffing (fresh_sink never_fails) 4 "gzip" ops Hf Hle).
Defined.

(** X9. As long as a response without a returned error is unswapped, the
    writer has kept everything back: the whole body is in the buffer, the
    sink has been given no write (its body and its write count are those of
    the start) and no header has gone onto the wire through it. *)
Theorem body_held_back_until_swap (A : algorithm) (c : sink) (swapSize : Z)
    (encoding : string) (ops : list op) :
  let rw := run ops (newResponseWriter A c swapSize encoding) in
  faults ops (newResponseWriter A c swapSize encoding) = [] ->
  Swapped rw = false ->
  buf rw = Some (written ops) /\
  sk_body (sink_of rw) = sk_body c /\
  sk_calls (sink_of rw) = sk_calls c /\
  sk_wire (sink_of rw) = sk_wire c /\
  tw_bytesWritten (trackingWriter rw) = 0.
Proof.
  intros rw Hf Hs.
  pose proof (run_phase A ops _ false [] (sk_body c) (phase_new A c swapSize encoding) Hf) as Hp.
  cbn [app] in Hp. fold rw in Hp.
  destruct (phase_unswapped A rw _ _ _ Hp Hs) as (Hb & _ & Hn & Hbody).
  destruct (run_quiet A ops _ false [] (sk_body c) (phase_new A c swapSize encoding) Hf Hs)
    as [Hc Hw].
  fold rw in Hc, Hw. auto.
Qed.

Lemma body_held_back_until_swap_witness :
  let new := newResponseWriter stuffing (fresh_sink refuses_all) 512 "gzip" in
  let rw := run (gin_String 200 smallBody) new in
  faults (gin_String 200 smallBody) new = [] /\
  Swapped rw = false /\
  buf rw = Some (written (gin_String 200 smallBody)) /\
  sk_body (sink_of rw) = sk_body (fresh_sink refuses_all) /\
  sk_calls (sink_of rw) = sk_calls (fresh_sink refuses_all) /\
  sk_wire (sink_of rw) = sk_wire (fresh_sink refuses_all) /\
  tw_bytesWritten (trackingWriter rw) = 0.
Proof.
  intros new rw.
  assert (faults (gin_String 200 smallBody) new = []) as Hf by (vm_compute; reflexivity).
  assert (Swapped rw = false) as Hs by (vm_compute; reflexivity).
  split; [exact Hf|]. split; [exact Hs|].
  exact (body_held_back_until_swap stuffing (fresh_sink refuses_all) 512 "gzip"
           (gin_String 200 smallBody) Hf Hs).
Defined.

(** ** What the encoder is given *)

Section Fed.

Variable A : algorithm.
Implicit Types (rw : respWriter A) (acc pre : list byte) (o : op)
  (chunks : list (list byte)).

Lemma written_as_chunks (ops : list op) :
  written ops = concat (map payload (List.filter is_write ops)).
Proof.
  induction ops as [|o ops IH]; [reflexivity|].
  rewrite written_cons, IH. destruct o; reflexivity.
Qed.

Lemma step_of_write rw o :
  is_write o = true ->
  step rw o = (snd (fst (Write A rw (payload o))), snd (Write A rw (payload o))).
Proof.
  destruct o; try discriminate; intros _; cbn [step payload]; unfold WriteString;
    now destruct (Write A rw _) as [[n err] rw'].
Qed.

Lemma step_streaming rw chunks pre o :
  streaming rw chunks pre ->
  fst (step rw o) = None ->
  streaming (snd (step rw o)) (chunks ++ map payload (List.filter is_write [o])) pre.
Proof.
  intros Hs He. destruct (is_write o) eqn:Hw.
  - cbn [List.filter map]. rewrite Hw. cbn [map].
    rewrite (step_of_write rw o Hw) in He |- *. cbn [fst snd] in *.
    destruct (Write A rw (payload o)) as [[n err] rw'] eqn:Hwr. cbn [fst snd] in *. subst err.
    now apply Write_streaming with rw n.
  - cbn [List.filter map]. rewrite Hw. cbn [map]. rewrite app_nil_r.
    destruct o; try discriminate; exact Hs.
Qed.

Lemma run_streaming ops rw chunks pre :
  streaming rw chunks pre ->
  faults ops rw = [] ->
  streaming (run ops rw) (chunks ++ map payload (List.filter is_write ops)) pre.
Proof.
  revert rw chunks. induction ops as [|o ops IH]; intros rw chunks Hs Hf.
  - cbn. now rewrite app_nil_r.
  - apply faults_cons_nil in Hf as [He Hf].
    pose proof (IH _ _ (step_streaming rw chunks pre o Hs He) Hf) as H.
    cbn [run fold_left]. fold (run ops (snd (step rw o))).
    change (o :: ops) with ([o] ++ ops).
    rewrite List.filter_app, map_app, app_assoc. exact H.
Qed.

Lemma step_still_buffering rw acc pre o :
  buffering rw acc pre ->
  fst (step rw o) = None ->
  Swapped (snd (step rw o)) = false ->
  buffering (snd (step rw o)) (acc ++ payload o) pre.
Proof.
  intros Hb He Hs.
  assert (phase rw false acc pre) as Hp by (left; split; [exact Hb|discriminate]).
  exact (phase_unswapped A _ _ _ _ (step_phase A rw false acc pre o Hp He) Hs).
Qed.

(** The write that swaps hands over the buffer, then itself; the later
    writes follow one by one. *)
Lemma run_fed ops rw acc pre :
  buffering rw acc pre ->
  faults ops rw = [] ->
  Swapped (run ops rw) = true ->
  exists ops1 o ops2,
    ops = ops1 ++ o :: ops2 /\
    is_write o = true /\
    Swapped (run ops1 rw) = false /\
    Swapped (run (ops1 ++ [o]) rw) = true /\
    streaming (run ops rw)
      (buffer_chunk (acc ++ written ops1) ++
       payload o :: map payload (List.filter is_write ops2)) pre.
Proof.
  revert rw acc. induction ops as [|o ops IH]; intros rw acc Hb Hf Hs.
  - exfalso. destruct Hb as (Hbuf & _). cbn in Hs. unfold Swapped in Hs. now rewrite Hbuf in Hs.
  - apply faults_cons_nil in Hf as [He Hf].
    assert (Swapped rw = false) as Hs0
      by (destruct Hb as (Hbuf & _); unfold Swapped; now rewrite Hbuf).
    destruct (Swapped (snd (step rw o))) eqn:Hs1.
    + destruct (step_flips A rw o Hs0 Hs1) as (Hw & data & Hd & Hth).
      pose proof Hb as (Hbuf & _). rewrite Hbuf in Hd. injection Hd as <-.
      assert (streaming (snd (step rw o)) (buffer_chunk acc ++ [payload o]) pre) as Hst.
      { rewrite (step_of_write rw o Hw) in He |- *. cbn [fst snd] in *.
        destruct (Write A rw (payload o)) as [[n err] rw'] eqn:Hwr. cbn [fst snd] in *.
        subst err. now apply Write_due with rw n. }
      exists [], o, ops.
      split; [reflexivity|]. split; [exact Hw|]. split; [exact Hs0|]. split; [exact Hs1|].
      pose proof (run_streaming ops _ _ pre Hst Hf) as H.
      rewrite <- app_assoc in H. cbn [written flat_map]. rewrite app_nil_r. exact H.
    + destruct (IH _ _ (step_still_buffering rw acc pre o Hb He Hs1) Hf Hs)
        as (ops1 & o' & ops2 & -> & Hw & Hu & Hsw & Hst).
      exists (o :: ops1), o', ops2.
      split; [reflexivity|]. split; [exact Hw|]. split; [exact Hu|]. split; [exact Hsw|].
      rewrite written_cons, app_assoc. exact Hst.
Qed.

End Fed.

(** X10. In a response without a returned error, a swapped writer has fed
    its encoder exactly the body, cut as follows: the write that swapped
    handed over the buffer, holding the bytes of all earlier writes, in one
    write (in none when it was empty), then its own bytes; every later write
    followed as it came.  The pieces put together are the bytes the
    application wrote, and the sink holds what the encoder sent out for
    them, before any trailer. *)
Theorem encoder_fed_the_body (A : algorithm) (c : sink) (swapSize : Z)
    (encoding : string) (ops : list op) :
  let new := newResponseWriter A c swapSize encoding in
  faults ops new = [] ->
  Swapped (run ops new) = true ->
  exists ops1 o ops2 state out,
    ops = ops1 ++ o :: ops2 /\
    is_write o = true /\
    Swapped (run ops1 new) = false /\
    Swapped (run (ops1 ++ [o]) new) = true /\
    let chunks :=
      buffer_chunk (written ops1) ++ payload o :: map payload (List.filter is_write ops2) in
    concat chunks = written ops /\
    compressor (run ops new) = Some state /\
    feed A (enc_new A) chunks = (state, out) /\
    sk_body (sink_of (run ops new)) = sk_body c ++ out.
Proof.
  intros new Hf Hs.
  assert (buffering new [] (sk_body c)) as Hb by repeat split.
  destruct (run_fed A ops new [] (sk_body c) Hb Hf Hs)
    as (ops1 & o & ops2 & Hops & Hw & Hu & Hsw & (_ & state & out & Hc & Hfeed & Hbody)).
  cbn [app] in Hfeed.
  exists ops1, o, ops2, state, out.
  split; [exact Hops|]. split; [exact Hw|]. split; [exact Hu|]. split; [exact Hsw|].
  cbv zeta. split; [|auto].
  rewrite Hops. unfold written. rewrite flat_map_app. fold (written ops1). cbn [flat_map].
  fold (written ops2). rewrite concat_app, concat_buffer_chunk.
  cbn [concat]. now rewrite <- written_as_chunks.
Qed.

Lemma encoder_fed_the_body_witness :
  let new := newResponseWriter stuffing (fresh_sink never_fails) 4 "gzip" in
  let ops := large_response ++ [OpWriteString "ij"] in
  faults ops new = [] /\
  Swapped (run ops new) = true /\
  exists ops1 o ops2 state out,
    ops = ops1 ++ o :: ops2 /\
    is_write o = true /\
    Swapped (run ops1 new) = false /\
    Swapped (run (ops1 ++ [o]) new) = true /\
    let chunks :=
      buffer_chunk (written ops1) ++ payload o :: map payload (List.filter is_write ops2) in
    concat chunks = written ops /\
    compressor (run ops new) = Some state /\
    feed stuffing (enc_new stuffing) chunks = (state, out) /\
    sk_body (sink_of (run ops new)) = sk_body (fresh_sink never_fails) ++ out.
Proof.
  intros new ops.
  assert (faults ops new = []) as Hf by (vm_compute; reflexivity).
  assert (Swapped (run ops new) = true) as Hs by (vm_compute; reflexivity).
  split; [exact Hf|]. split; [exact Hs|].
  exact (encoder_fed_the_body stuffing (fresh_sink never_fails) 4 "gzip" ops Hf Hs).
Defined.

(** ** A swap that fails *)

Lemma copy_to_compressor_failed (A : algorithm) (c : enc A) (tw : trackingResponseWriter)
    (data : list byte) m e rest c' tw' :
  copy_to_compressor A c tw data = ((m, Some e), rest, c', tw') ->
  rest = drop (Z.to_nat m) data /\ 0 <= m <= len data.
Proof.
  unfold copy_to_compressor. destruct data as [|x data]; [discriminate|].
  destruct (compressor_Write A c tw (x :: data)) as [[[k err] c1] tw1] eqn:Hc.
  destruct err as [e1|].
  - intros [= <- _ <- _ _]. split; [reflexivity|].
    revert Hc. unfold compressor_Write.
    destruct (enc_write A c (x :: data)) as [c2 [|y out]]; [discriminate|].
    destruct (tracking_Write tw (y :: out)) as [[j err] tw2].
    destruct err; [|discriminate]. intros [= <- _ _ _]. unfold len.
    pose proof (Nat.le_min_r (enc_count A c (x :: data) (Z.to_nat j)) (length (x :: data))).
    split; [apply Nat2Z.is_nonneg|now apply Nat2Z.inj_le].
  - apply compressor_Write_ok in Hc as [-> _]. rewrite Z.eqb_refl. discriminate.
Qed.

(** X11. When [Write] returns an error and the writer is still unswapped,
    the error comes from the copy of the buffer into the new compressor.
    The count [Write] returns is then the number of buffered bytes the
    compressor took (between zero and the buffer length; it does not refer
    to the slice passed in and can exceed its length); exactly those bytes
    have left the buffer, the slice was not taken, and the count of original
    bytes is unchanged. *)
Theorem failed_swap_returns_buffer_count (A : algorithm) (rw : respWriter A)
    (data b : list byte) (n : Z) (e : error) (rw' : respWriter A) :
  buf rw = Some data ->
  Write A rw b = ((n, Some e), rw') ->
  Swapped rw' = false ->
  threshold rw <= int_add (len data) (len b) /\
  0 <= n <= len data /\
  buf rw' = Some (drop (Z.to_nat n) data) /\
  bytesWritten rw' = bytesWritten rw.
Proof.
  intros Hb Hw Hs.
  pose proof (Write_error_count A rw b n e rw' Hw) as Hcount.
  revert Hw. unfold Write, swap_if_due. rewrite buf_map_header, Hb.
  cbn [threshold map_header set_tracker].
  destruct (Z.leb_spec (threshold rw) (int_add (len data) (len b))) as [Hle|Hlt].
  - match goal with |- context [copy_to_compressor A ?c0 ?tw0 data] =>
      destruct (copy_to_compressor A c0 tw0 data) as [[[[copied err] rest] c1] tw1] eqn:Hc
    end.
    destruct err as [e0|].
    + intros [= <- <- <-].
      apply copy_to_compressor_failed in Hc as [-> Hbound]. auto.
    + match goal with |- context [dest_Write A ?r b] =>
        pose proof (dest_Write_swapped A r b eq_refl) as Hd;
        destruct (dest_Write A r b) as [[k err] rw2]
      end.
      cbn [snd] in Hd. destruct err; intros [= _ _ <-];
        unfold Swapped in Hs; cbn in Hs; now rewrite Hd in Hs.
  - unfold dest_Write. rewrite buf_map_header, Hb. discriminate.
Qed.

Lemma failed_swap_returns_buffer_count_witness :
  let rw := run [OpWrite (bytes_of "abcdef")]
                (newResponseWriter stuffing (fresh_sink (breaks_at 0 7)) 8 "gzip") in
  let b := bytes_of "gh" in
  let rw' := snd (Write stuffing rw b) in
  buf rw = Some (bytes_of "abcdef") /\
  Write stuffing rw b = ((3, Some (ErrTransport 1)), rw') /\
  Swapped rw' = false /\
  len b < 3 /\
  threshold rw <= int_add (len (bytes_of "abcdef")) (len b) /\
  0 <= 3 <= len (bytes_of "abcdef") /\
  buf rw' = Some (drop (Z.to_nat 3) (bytes_of "abcdef")) /\
  bytesWritten rw' = bytesWritten rw.
Proof.
  intros rw b rw'.
  assert (buf rw = Some (bytes_of "abcdef")) as Hb by (vm_compute; reflexivity).
  assert (Write stuffing rw b = ((3, Some (ErrTransport 1)), rw')) as Hw
    by (vm_compute; reflexivity).
  assert (Swapped rw' = false) as Hs by (vm_compute; reflexivity).
  split; [exact Hb|]. split; [exact Hw|]. split; [exact Hs|].
  split; [vm_compute; reflexivity|].
  exact (failed_swap_returns_buffer_count stuffing rw (bytes_of "abcdef") b 3
           (ErrTransport 1) rw' Hb Hw Hs).
Defined.

(** X12. A response without body bytes (no write at all, or only empty
    writes) under a positive threshold is closed without a single write to
    the sink: [Close] returns nil and leaves the tracking writer and the
    sink as they were, even on a transport that would refuse every write. *)
Theorem empty_response_closes_silently (A : algorithm) (c : sink) (swapSize : Z)
    (encoding : string) (ops : list op) :
  is_int swapSize ->
  0 < swapSize ->
  written ops = [] ->
  let rw := run ops (newResponseWriter A c swapSize encoding) in
  fst (Close A rw) = None /\
  trackingWriter (snd (Close A rw)) = trackingWriter rw /\
  sk_body (sink_of rw) = sk_body c /\
  Size A rw = 0.
Proof.
  intros Hi Hpos Hw rw.
  assert (buffering (newResponseWriter A c swapSize encoding) [] (sk_body c)) as Hb0
    by repeat split.
  destruct (run_below A ops _ [] (sk_body c) Hb0 Hi) as (Hb & _ & _).
  { cbn [threshold newResponseWriter]. rewrite Hw. change (len (@nil byte)) with 0. lia. }
  fold rw in Hb. rewrite Hw in Hb. cbn [app] in Hb. destruct Hb as (Hbuf & Hn & _ & Hbody).
  assert (Close_body A rw = (None, set_tracker A (trackingWriter rw) (set_buf A (Some []) rw)))
    as Hbody' by (unfold Close_body; now rewrite Hbuf).
  unfold Close. rewrite Hbody'. cbn [fst snd].
  split; [reflexivity|]. split.
  - now destruct (Close_deferred_fields A (set_tracker A (trackingWriter rw)
                                             (set_buf A (Some []) rw))) as (-> & _).
  - split; [exact Hbody|]. unfold Size. rewrite Hn. reflexivity.
Qed.

Lemma empty_response_closes_silently_witness :
  let ops := [OpWriteHeader 204; OpWrite []] in
  let rw := run ops (newResponseWriter stuffing (fresh_sink refuses_all) 512 "gzip") in
  is_int 512 /\ 0 < 512 /\ written ops = [] /\
  fst (Close stuffing rw) = None /\
  trackingWriter (snd (Close stuffing rw)) = trackingWriter rw /\
  sk_body (sink_of rw) = sk_body (fresh_sink refuses_all) /\
  Size stuffing rw = 0.
Proof.
  intros ops rw.
  assert (is_int 512) as Hi by (unfold is_int, int_min, int_max; lia).
  assert (0 < 512) as Hpos by lia.
  split; [exact Hi|]. split; [exact Hpos|]. split; [reflexivity|].
  exact (empty_response_closes_silently stuffing (fresh_sink refuses_all) 512 "gzip" ops
           Hi Hpos eq_refl).
Defined.
